(** * motominderapi: the in-memory motorcycle repository, the insert use
    case and the insert view model, embedded from the Go sources.

    Layout:
    - [Go]           the pieces of the Go language and standard library the
                     sources rely on (64-bit [int], [errors.New], [sort.Search]);
    - [Entities]     the [Motorcycle] record;
    - [Repositories] [MotorcycleRepository] with the package-level [nextID];
    - [Interactors]  [InsertMotorcycleInteractor.Handle];
    - [Viewmodel]    [NewInsertMotorcycleViewModel]. *)

From Stdlib Require Import ZArith String List Lia Sorting.Sorted DecimalString.
From stdpp Require Import base list sorting strings.
From Equations Require Import Equations.

Local Open Scope string_scope.
Local Open Scope list_scope.
Local Open Scope Z_scope.

(* ===================================================================== *)
(** ** Go: integers, errors, sort.Search                                  *)
(* ===================================================================== *)
Module Go.

(** Go's [int] at its 64-bit width (amd64, arm64): a [Z] in
    [min_int .. max_int]; arithmetic wraps around silently. *)
Definition min_int : Z := - 2 ^ 63.
Definition max_int : Z := 2 ^ 63 - 1.

Definition wrap (z : Z) : Z := (z + 2 ^ 63) mod 2 ^ 64 - 2 ^ 63.

Definition add (a b : Z) : Z := wrap (a + b).

(** time.Time, as an instant on an integer time line. *)
Definition Time : Type := Z.

(** An [error] value is identified with its message; [nil] is [None]. *)
Definition error : Type := string.

Definition errors_New (msg : string) : error := msg.

(** github.com/pkg/errors: [Wrap(err, message)] prefixes the message. *)
Definition errors_Wrap (err : error) (message : string) : error :=
  (message ++ ": " ++ err)%string.

(** Go compares strings bytewise, lexicographically: [a >= b]. *)
Definition string_ge (a b : string) : bool := String.leb b a.

(** sort.Search:
<<
    i, j := 0, n
    for i < j {
        h := int(uint(i+j) >> 1)
        if !f(h) { i = h + 1 } else { j = h }
    }
    return i
>>
    The loop is total: [j - i] shrinks at every turn. *)
Equations? Search_loop (f : nat -> bool) (i j : nat) : nat
  by wf (j - i)%nat lt :=
  Search_loop f i j with decide (i < j)%nat => {
    | left _ with f (Nat.div2 (i + j)) => {
        | false := Search_loop f (S (Nat.div2 (i + j))) j
        | true := Search_loop f i (Nat.div2 (i + j)) }
    | right _ := i }.
Proof.
  all: pose proof (Nat.div2_odd (i + j)) as Hd;
    destruct (Nat.odd (i + j)); simpl in Hd; lia.
Qed.

Definition Search (n : nat) (f : nat -> bool) : nat := Search_loop f 0 n.

End Go.

(* ===================================================================== *)
(** ** Entities                                                           *)
(* ===================================================================== *)
Module Entities.

(** Modelled from the spec: entities.Motorcycle is not among the sources;
    the fields are those of the data model (section 3), of which the
    repository reads and writes [ID], [Make], [Model], [Year],
    [CreatedUtc] and [ModifiedUtc]. *)
Record Motorcycle : Type := mkMotorcycle {
  ID : Z;
  Make : string;
  Model : string;
  Year : Z;
  Vin : string;
  CreatedUtc : Go.Time;
  ModifiedUtc : Go.Time
}.

Definition set_ID (m : Motorcycle) (id : Z) : Motorcycle :=
  mkMotorcycle id (Make m) (Model m) (Year m) (Vin m) (CreatedUtc m) (ModifiedUtc m).

Definition set_CreatedUtc (m : Motorcycle) (t : Go.Time) : Motorcycle :=
  mkMotorcycle (ID m) (Make m) (Model m) (Year m) (Vin m) t (ModifiedUtc m).

Definition set_ModifiedUtc (m : Motorcycle) (t : Go.Time) : Motorcycle :=
  mkMotorcycle (ID m) (Make m) (Model m) (Year m) (Vin m) (CreatedUtc m) t.

End Entities.

(* ===================================================================== *)
(** ** Repositories                                                       *)
(* ===================================================================== *)
Module Repositories.
Import Entities.

(** What a call can see and change: the package-level variable [nextID]
    (shared by every repository of the process) and the receiver's
    [Motorcycles] slice. *)
Record Store : Type := mkStore {
  nextID : Z;
  Motorcycles : list Motorcycle
}.

(** [var nextID = 0] *)
Definition nextID_init : Z := 0.

Definition kPrimaryKeyID_DoesNotExist : Z := -1.

(** The errors the repository creates with [errors.New]. *)
Definition err_not_found : Go.error :=
  Go.errors_New "motorcycle was not found".
Definition err_find_failed : Go.error :=
  Go.errors_New "motorcycle was not found, so it cannot be updated".
Definition err_ID_exists : Go.error :=
  Go.errors_New "cannot insert this motorcycle because the ID already exists".
Definition err_update_missing : Go.error :=
  Go.errors_New "cannot update a motorcycle that does not exist".
Definition err_delete_missing : Go.error :=
  Go.errors_New "cannot delete a motorcycle that does not exist".

(** [NewMotorcycleRepository]: an empty collection; the shared counter
    keeps whatever value [n] the process has reached. *)
Definition NewMotorcycleRepository (n : Z) : Store := mkStore n [].

Definition List (s : Store) : list Motorcycle * option Go.error :=
  (Motorcycles s, None).

(** [nextID = nextID + 1; return nextID] *)
Definition getNextID (s : Store) : Z * Store :=
  let n := Go.add (nextID s) 1 in
  (n, mkStore n (Motorcycles s)).

(** [repo.Motorcycles[i].ID >= id]; [sort.Search] only asks for [i]
    below the length, so the out-of-range case is never evaluated
    ([GoFacts.Search_loop_ext]). *)
Definition id_ge (l : list Motorcycle) (id : Z) (i : nat) : bool :=
  match l !! i with
  | Some m => id <=? ID m
  | None => false
  end.

Definition id_is (l : list Motorcycle) (id : Z) (i : nat) : bool :=
  match l !! i with
  | Some m => ID m =? id
  | None => false
  end.

(** Returns the index, or [-1] and an error. *)
Definition findByID (s : Store) (id : Z) : Z * option Go.error :=
  let l := Motorcycles s in
  let i := Go.Search (length l) (id_ge l id) in
  if (i <? length l)%nat && id_is l id i
  then (Z.of_nat i, None)
  else (-1, Some err_not_found).

(** The pointer [&repo.Motorcycles[i]] is rendered by the record it
    points to. *)
Definition FindByID (s : Store) (id : Z) : option Motorcycle * option Go.error :=
  match findByID s id with
  | (_, Some err) => (None, Some err)
  | (i, None) => (Motorcycles s !! Z.to_nat i, None)
  end.

(** The predicate handed to [sort.Search] by [Find]. *)
Definition make_model_year_ge (l : list Motorcycle) (motorcycle : Motorcycle)
    (i : nat) : bool :=
  match l !! i with
  | Some m => Go.string_ge (Make m) (Make motorcycle)
              && Go.string_ge (Model m) (Model motorcycle)
              && (Year motorcycle <=? Year m)
  | None => false
  end.

Definition Find (s : Store) (motorcycle : Motorcycle)
    : option Motorcycle * option Go.error :=
  let l := Motorcycles s in
  let i := Go.Search (length l) (make_model_year_ge l motorcycle) in
  if (i <? length l)%nat && id_is l (ID motorcycle) i
  then (l !! i, None)
  else (None, Some err_find_failed).

(** [append(repo.Motorcycles[:index], repo.Motorcycles[index+1:]...)] *)
Definition removeIndex (s : Store) (index : nat) : list Motorcycle :=
  take index (Motorcycles s) ++ drop (index + 1) (Motorcycles s).

Definition Delete (s : Store) (motorcycle : Motorcycle) : Store * option Go.error :=
  let '(i, _) := findByID s (ID motorcycle) in
  if i =? kPrimaryKeyID_DoesNotExist
  then (s, Some err_delete_missing)
  else (mkStore (nextID s) (removeIndex s (Z.to_nat i)), None).

Definition Save (s : Store) : Store * option Go.error := (s, None).

(** What a call with a [*entities.Motorcycle] argument leaves behind: the
    store, the entity the argument points to as the call left it (the
    methods write through the pointer), and the returned pair. A returned
    non-nil pointer is the argument pointer, so [returned] shows the same
    record as [entity]. [Insert] and [Update] below take a non-nil pointer
    to an entity the caller owns; [Insert_ptr] and [Update_ptr] take any
    pointer, also one into the collection itself. *)
Record Outcome : Type := mkOutcome {
  store : Store;
  entity : Motorcycle;
  returned : option Motorcycle;
  err : option Go.error
}.

Section WithValidate.

(** entities.Motorcycle.Validate is not among the sources: the
    repository is embedded for an arbitrary validator. *)
Variable Validate : Motorcycle -> option Go.error.

(** [Insert] of an entity the caller owns ([Insert_ptr] takes any
    pointer). *)
Definition Insert (s : Store) (motorcycle : Motorcycle) (now : Go.Time) : Outcome :=
  let '(i, _) := findByID s (ID motorcycle) in
  if negb (i =? kPrimaryKeyID_DoesNotExist)
  then mkOutcome s motorcycle None (Some err_ID_exists)
  else
    let '(id, s1) := getNextID s in
    let motorcycle1 := set_CreatedUtc (set_ID motorcycle id) now in
    match Validate motorcycle1 with
    | Some e => mkOutcome s1 motorcycle1 None (Some e)
    | None =>
        mkOutcome (mkStore (nextID s1) (Motorcycles s1 ++ [motorcycle1]))
          motorcycle1 (Some motorcycle1) None
    end.

(** The entity as [Insert] stamps it before validating. *)
Definition stamped (s : Store) (motorcycle : Motorcycle) (now : Go.Time)
    : Motorcycle :=
  set_CreatedUtc (set_ID motorcycle (fst (getNextID s))) now.

(** [Update] of an entity the caller owns ([Update_ptr] takes any
    pointer). *)
Definition Update (s : Store) (motorcycle : Motorcycle) (now : Go.Time) : Outcome :=
  let '(i, _) := findByID s (ID motorcycle) in
  if i =? kPrimaryKeyID_DoesNotExist
  then mkOutcome s motorcycle None (Some err_update_missing)
  else
    let motorcycle1 := set_ModifiedUtc motorcycle now in
    match Validate motorcycle1 with
    | Some e => mkOutcome s motorcycle1 None (Some e)
    | None =>
        mkOutcome (mkStore (nextID s) (<[Z.to_nat i := motorcycle1]> (Motorcycles s)))
          motorcycle1 (Some motorcycle1) None
    end.

(** *** Pointers into the collection

    A [*entities.Motorcycle] argument is either a pointer to an entity the
    caller owns or the pointer [FindByID] and [Find] hand back,
    [&repo.Motorcycles[i]]. Writes through the second kind land in the
    stored record at once. *)
Inductive Pointer : Type :=
| Owned (motorcycle : Motorcycle)
| Stored (i : nat).

(** [*p]; [None] when [i] is not an index of the collection (no such
    pointer is handed out). *)
Definition deref (s : Store) (p : Pointer) : option Motorcycle :=
  match p with
  | Owned motorcycle => Some motorcycle
  | Stored i => Motorcycles s !! i
  end.

(** The store after the field writes that leave [*p] equal to [m]. *)
Definition assign (s : Store) (p : Pointer) (m : Motorcycle) : Store :=
  match p with
  | Owned _ => s
  | Stored i => mkStore (nextID s) (<[i := m]> (Motorcycles s))
  end.

(** [Insert] for any pointer argument: [motorcycle.ID = ...] and
    [motorcycle.CreatedUtc = ...] are writes through [p], made before
    [Validate] runs and before the entity is appended. *)
Definition Insert_ptr (s : Store) (p : Pointer) (now : Go.Time) : option Outcome :=
  match deref s p with
  | None => None
  | Some motorcycle =>
      Some
        (let '(i, _) := findByID s (ID motorcycle) in
         if negb (i =? kPrimaryKeyID_DoesNotExist)
         then mkOutcome s motorcycle None (Some err_ID_exists)
         else
           let '(id, s1) := getNextID s in
           let motorcycle1 := set_CreatedUtc (set_ID motorcycle id) now in
           let s2 := assign s1 p motorcycle1 in
           match Validate motorcycle1 with
           | Some e => mkOutcome s2 motorcycle1 None (Some e)
           | None =>
               mkOutcome (mkStore (nextID s2) (Motorcycles s2 ++ [motorcycle1]))
                 motorcycle1 (Some motorcycle1) None
           end)
  end.

(** [Update] for any pointer argument: [motorcycle.ModifiedUtc = ...] is a
    write through [p], made before [Validate] runs;
    [repo.Motorcycles[i] = *motorcycle] then copies the entity to the index
    found. *)
Definition Update_ptr (s : Store) (p : Pointer) (now : Go.Time) : option Outcome :=
  match deref s p with
  | None => None
  | Some motorcycle =>
      Some
        (let '(i, _) := findByID s (ID motorcycle) in
         if i =? kPrimaryKeyID_DoesNotExist
         then mkOutcome s motorcycle None (Some err_update_missing)
         else
           let motorcycle1 := set_ModifiedUtc motorcycle now in
           let s1 := assign s p motorcycle1 in
           match Validate motorcycle1 with
           | Some e => mkOutcome s1 motorcycle1 None (Some e)
           | None =>
               mkOutcome
                 (mkStore (nextID s1)
                    (<[Z.to_nat i := motorcycle1]> (Motorcycles s1)))
                 motorcycle1 (Some motorcycle1) None
           end)
  end.

(** The calls a client can make that change the store. [OpElsewhere] is
    an Insert on another repository of the same process that gets as
    far as [getNextID]: here it only moves the shared counter. *)
Inductive Op : Type :=
| OpInsert (motorcycle : Motorcycle) (now : Go.Time)
| OpUpdate (motorcycle : Motorcycle) (now : Go.Time)
| OpDelete (motorcycle : Motorcycle)
| OpSave
| OpElsewhere.

Definition step (s : Store) (o : Op) : Store :=
  match o with
  | OpInsert m now => store (Insert s m now)
  | OpUpdate m now => store (Update s m now)
  | OpDelete m => fst (Delete s m)
  | OpSave => fst (Save s)
  | OpElsewhere => snd (getNextID s)
  end.

Definition run (s : Store) (ops : list Op) : Store := fold_left step ops s.

(** The IDs [getNextID] hands out during one call, and along a run. *)
Definition assigned (s : Store) (o : Op) : list Z :=
  match o with
  | OpInsert m _ =>
      if fst (findByID s (ID m)) =? kPrimaryKeyID_DoesNotExist
      then [fst (getNextID s)] else []
  | OpElsewhere => [fst (getNextID s)]
  | _ => []
  end.

Fixpoint history (s : Store) (ops : list Op) : list Z :=
  match ops with
  | [] => []
  | o :: ops' => assigned s o ++ history (step s o) ops'
  end.

End WithValidate.

Definition ids (s : Store) : list Z := ID <$> Motorcycles s.

(** Strictly ascending IDs: what the binary search of [findByID] needs. *)
Definition sorted_by_ID (s : Store) : Prop := StronglySorted Z.lt (ids s).

(** No stored ID is ahead of the shared counter. *)
Definition counter_covers (s : Store) : Prop :=
  Forall (fun id => id <= nextID s) (ids s).

End Repositories.

(* ===================================================================== *)
(** ** Sample data                                                        *)
(* ===================================================================== *)
Module Samples.
Import Entities Repositories.

(** A validator in the style of the ozzo rules: the make is required. *)
Definition make_required (m : Motorcycle) : option Go.error :=
  if String.eqb (Make m) "" then Some "make: cannot be blank." else None.

(** Entities as [entities.NewMotorcycle] hands them out: no ID yet. *)
Definition honda : Motorcycle :=
  mkMotorcycle 0 "Honda" "Shadow" 2006 "1HGCM82633A004352" 0 0.
Definition yamaha : Motorcycle :=
  mkMotorcycle 0 "Yamaha" "V-Max" 2010 "JYA2WEE04TA058137" 0 0.
Definition nameless : Motorcycle :=
  mkMotorcycle 0 "" "Shadow" 2006 "1HGCM82633A004353" 0 0.

(** A repository value whose exported [Motorcycles] field was filled
    directly, not through Insert: the IDs 5 and 1 are out of order. *)
Definition out_of_order : Store :=
  mkStore 5 [set_CreatedUtc (set_ID honda 5) 10;
             set_CreatedUtc (set_ID yamaha 1) 20].

(** A repository value holding one record without a make. *)
Definition with_nameless : Store := mkStore 1 [set_CreatedUtc (set_ID nameless 1) 10].

(** Collaborators for the insert use case over this repository: a caller
    with the given credentials, a VIN lookup by scanning the collection, a
    clock stopped at 100, and a response that pairs the ID with the error. *)
Definition sample_IsAuthenticated (b : bool) (w : Store) : bool * Store := (b, w).

Definition sample_IsAuthorized (admin : bool) (role : string) (w : Store)
    : bool * Store :=
  (admin && String.eqb role "admin", w).

Definition sample_FindByVin (vin : string) (w : Store)
    : (option Motorcycle * option Go.error) * Store :=
  match List.find (fun m => String.eqb (Vin m) vin) (Motorcycles w) with
  | Some m => ((Some m, None), w)
  | None => ((None, Some (Go.errors_New "motorcycle was not found")), w)
  end.

Definition sample_NewMotorcycle (make model : string) (year : Z) (vin : string)
    : option Motorcycle * option Go.error :=
  let m := mkMotorcycle 0 make model year vin 0 0 in
  match make_required m with
  | Some e => (None, Some e)
  | None => (Some m, None)
  end.

Definition sample_Insert (motorcycle : option Motorcycle) (w : Store)
    : (option Motorcycle * option Go.error) * Store :=
  match motorcycle with
  | Some m =>
      let out := Insert make_required w m 100 in
      ((returned out, err out), store out)
  | None => ((None, Some (Go.errors_New "no motorcycle")), w)
  end.

Definition sample_Save (w : Store) : option Go.error * Store :=
  (snd (Save w), fst (Save w)).

End Samples.

(* ===================================================================== *)
(** ** Interactors                                                        *)
(* ===================================================================== *)
Module Interactors.

(** requestmessages.InsertMotorcycleRequestMessage, by the fields
    [Handle] reads; [Handle] is given a non-nil pointer to one. *)
Record InsertMotorcycleRequestMessage : Type := mkRequest {
  Make : string;
  Model : string;
  Year : Z;
  Vin : string
}.

(** What [Handle] gives back: the value built by the response
    constructor, or a run-time panic ([motorcycle.ID] on a nil pointer). *)
Inductive Result (Response : Type) : Type :=
| Returned (r : Response)
| Panicked.
Arguments Returned {Response} r.
Arguments Panicked {Response}.

Section WithCollaborators.

(** The interactor only knows its collaborators through interfaces and
    constructors of other packages. [World] is whatever state they
    keep; every call threads it. A [*entities.Motorcycle] is rendered
    by [option Motorcycle] ([None] is nil). *)
Variable World : Type.
Variable Role : Type.
Variable Response : Type.

(** constants.InvalidEntityID, enumerations.AdminAuthorizationRole *)
Variable InvalidEntityID : Z.
Variable AdminAuthorizationRole : Role.

(** interfaces.AuthService *)
Variable IsAuthenticated : World -> bool * World.
Variable IsAuthorized : Role -> World -> bool * World.

(** interfaces.MotorcycleRepository *)
Variable FindByVin :
  string -> World -> (option Entities.Motorcycle * option Go.error) * World.
Variable Insert :
  option Entities.Motorcycle -> World ->
  (option Entities.Motorcycle * option Go.error) * World.
Variable Save : World -> option Go.error * World.

(** entities.NewMotorcycle *)
Variable NewMotorcycle :
  string -> string -> Z -> string -> option Entities.Motorcycle * option Go.error.

(** responsemessages.NewInsertMotorcycleResponseMessage: its pair of
    results is what [Handle] returns. *)
Variable NewInsertMotorcycleResponseMessage : Z -> option Go.error -> Response.

(** The calls [Handle] makes on its collaborators, recorded in the
    order it makes them. *)
Inductive Call : Type :=
| CallIsAuthenticated
| CallIsAuthorized (role : Role)
| CallFindByVin (vin : string)
| CallNewMotorcycle (make model : string) (year : Z) (vin : string)
| CallInsert (motorcycle : option Entities.Motorcycle)
| CallSave.

(** State monad over the collaborators' world and the call record. *)
Definition M (A : Type) : Type := World * list Call -> A * (World * list Call).

Definition ret {A : Type} (a : A) : M A := fun st => (a, st).

Definition bind {A B : Type} (m : M A) (k : A -> M B) : M B :=
  fun st => let '(a, st') := m st in k a st'.

Definition call {A : Type} (c : Call) (op : World -> A * World) : M A :=
  fun st => let '(a, w') := op (fst st) in (a, (w', snd st ++ [c])).

Definition pure_call {A : Type} (c : Call) (a : A) : M A :=
  call c (fun w => (a, w)).

#[local] Instance M_ret : MRet M := @ret.
#[local] Instance M_bind : MBind M := fun A B k m => bind m k.

Definition err_not_authenticated : Go.error :=
  Go.errors_New "insert operation failed due to not being authenticated, so please contact your system administrator".
Definition err_not_authorized : Go.error :=
  Go.errors_New "insert operation failed due to not having the required user authorization roles, so please contact your system administrator".
Definition err_duplicate_vin : Go.error :=
  Go.errors_New "insert operation failed due to a motorcycle with the same VIN already existing in the repository".

Definition failure (e : Go.error) : M (Result Response) :=
  ret (Returned (NewInsertMotorcycleResponseMessage InvalidEntityID (Some e))).

Definition Handle (requestMessage : InsertMotorcycleRequestMessage)
    : M (Result Response) :=
  authenticated ← call CallIsAuthenticated IsAuthenticated;
  if negb authenticated then failure err_not_authenticated else
  authorized ← call (CallIsAuthorized AdminAuthorizationRole)
                    (IsAuthorized AdminAuthorizationRole);
  if negb authorized then failure err_not_authorized else
  '(moto, _) ← call (CallFindByVin (Vin requestMessage))
                    (FindByVin (Vin requestMessage));
  match moto with
  | Some _ => failure err_duplicate_vin
  | None =>
  '(motorcycle, err) ←
      pure_call (CallNewMotorcycle (Make requestMessage) (Model requestMessage)
                   (Year requestMessage) (Vin requestMessage))
        (NewMotorcycle (Make requestMessage) (Model requestMessage)
           (Year requestMessage) (Vin requestMessage));
  match err with
  | Some e => failure e
  | None =>
  '(motorcycle, err) ← call (CallInsert motorcycle) (Insert motorcycle);
  match err with
  | Some e => failure e
  | None =>
  err ← call CallSave Save;
  match err with
  | Some e => failure e
  | None =>
      match motorcycle with
      | Some m =>
          ret (Returned (NewInsertMotorcycleResponseMessage (Entities.ID m) None))
      | None => ret Panicked
      end
  end end end end.

(** *** The sequential gate, following the words of the specification

    Six stages in a fixed order. A stage makes one call, then either
    rejects with an error or lets the request through; the entity under
    construction travels from stage to stage. *)
Inductive Stage : Type :=
| Authenticate | Authorize | CheckVin | Construct | RepoInsert | RepoSave.

Definition stages : list Stage :=
  [Authenticate; Authorize; CheckVin; Construct; RepoInsert; RepoSave].

Definition stage_of (c : Call) : Stage :=
  match c with
  | CallIsAuthenticated => Authenticate
  | CallIsAuthorized _ => Authorize
  | CallFindByVin _ => CheckVin
  | CallNewMotorcycle _ _ _ _ => Construct
  | CallInsert _ => RepoInsert
  | CallSave => RepoSave
  end.

Record Verdict : Type := mkVerdict {
  made : Call;
  rejection : option Go.error;
  carried : option Entities.Motorcycle;
  after : World
}.

Definition gate (requestMessage : InsertMotorcycleRequestMessage) (st : Stage)
    (mc : option Entities.Motorcycle) (w : World) : Verdict :=
  match st with
  | Authenticate =>
      let '(b, w') := IsAuthenticated w in
      mkVerdict CallIsAuthenticated
        (if b then None else Some err_not_authenticated) mc w'
  | Authorize =>
      let '(b, w') := IsAuthorized AdminAuthorizationRole w in
      mkVerdict (CallIsAuthorized AdminAuthorizationRole)
        (if b then None else Some err_not_authorized) mc w'
  | CheckVin =>
      let '(found, w') := FindByVin (Vin requestMessage) w in
      mkVerdict (CallFindByVin (Vin requestMessage))
        (if fst found is Some _ then Some err_duplicate_vin else None) mc w'
  | Construct =>
      let made_new := NewMotorcycle (Make requestMessage) (Model requestMessage)
                        (Year requestMessage) (Vin requestMessage) in
      mkVerdict (CallNewMotorcycle (Make requestMessage) (Model requestMessage)
                   (Year requestMessage) (Vin requestMessage))
        (snd made_new) (fst made_new) w
  | RepoInsert =>
      let '(inserted, w') := Insert mc w in
      mkVerdict (CallInsert mc) (snd inserted) (fst inserted) w'
  | RepoSave =>
      let '(e, w') := Save w in
      mkVerdict CallSave e mc w'
  end.

(** Run the stages in order, stopping at the first rejection. Gives the
    rejection (if any), the entity carried out of the last stage run,
    the world and the calls made. *)
Fixpoint run_gates (requestMessage : InsertMotorcycleRequestMessage)
    (todo : list Stage) (mc : option Entities.Motorcycle) (w : World)
    : option Go.error * option Entities.Motorcycle * World * list Call :=
  match todo with
  | [] => (None, mc, w, [])
  | st :: rest =>
      let v := gate requestMessage st mc w in
      match rejection v with
      | Some e => (Some e, carried v, after v, [made v])
      | None =>
          let '(r, mc', w', calls) :=
            run_gates requestMessage rest (carried v) (after v) in
          (r, mc', w', made v :: calls)
      end
  end.

Definition sequential_gate (requestMessage : InsertMotorcycleRequestMessage)
    (w : World) : Result Response * (World * list Call) :=
  let '(r, mc, w', calls) := run_gates requestMessage stages None w in
  match r with
  | Some e =>
      (Returned (NewInsertMotorcycleResponseMessage InvalidEntityID (Some e)),
       (w', calls))
  | None =>
      match mc with
      | Some m =>
          (Returned (NewInsertMotorcycleResponseMessage (Entities.ID m) None),
           (w', calls))
      | None => (Panicked, (w', calls))
      end
  end.

End WithCollaborators.

End Interactors.

(* ===================================================================== *)
(** ** Viewmodel                                                          *)
(* ===================================================================== *)
Module Viewmodel.

Record InsertMotorcycleViewModel : Type := mkViewModel {
  ID : Z;
  Message : string;
  Error : option Go.error
}.

(** response.InsertMotorcycleResponse, by the fields [Handle] reads. *)
Record InsertMotorcycleResponse : Type := mkResponse {
  RespID : Z;
  RespError : option Go.error
}.

Inductive Result : Type :=
| Returned (vm : option InsertMotorcycleViewModel) (err : option Go.error)
| Panicked.

(** The rules of github.com/go-ozzo/ozzo-validation the view model uses,
    by their documented behaviour: a rule gives [None] or its message. *)
Definition Required_int (v : Z) : option string :=
  if v =? 0 then Some "cannot be blank" else None.

Definition Required_string (v : string) : option string :=
  if String.eqb v "" then Some "cannot be blank" else None.

(** [Min] lets the zero value through: emptiness is [Required]'s job. *)
Definition Min (threshold v : Z) : option string :=
  if v =? 0 then None
  else if v <? threshold
       then Some ("must be no less than "
                  ++ NilZero.string_of_int (Z.to_int threshold))%string
  else None.

Definition NilOrNotEmpty_string (v : string) : option string :=
  if String.eqb v "" then Some "cannot be blank" else None.

(** [validation.Field]: the rules in order, the first message wins. *)
Fixpoint Field (rules : list (option string)) : option string :=
  match rules with
  | [] => None
  | Some msg :: _ => Some msg
  | None :: rest => Field rest
  end.

(** [validation.ValidateStruct]: nil when no field failed, else one error
    listing the failed fields under their JSON names. *)
Fixpoint ValidateStruct (fields : list (string * option string)) : option Go.error :=
  match fields with
  | [] => None
  | (_, None) :: rest => ValidateStruct rest
  | (name, Some msg) :: rest =>
      Some (match ValidateStruct rest with
            | None => name ++ ": " ++ msg ++ "."
            | Some more => name ++ ": " ++ msg ++ "; " ++ more
            end)%string
  end.

Section WithConstants.

(** constant.MinEntityID, constant.InvalidEntityID *)
Variable MinEntityID : Z.
Variable InvalidEntityID : Z.

Definition Validate (viewmodel : InsertMotorcycleViewModel) : option Go.error :=
  ValidateStruct
    [("id", Field [Required_int (ID viewmodel); Min MinEntityID (ID viewmodel)]);
     ("message", Field [Required_string (Message viewmodel);
                        NilOrNotEmpty_string (Message viewmodel)])].

(** [viewModel.Error.Error()] is evaluated before [errors.Wrap] is
    called; on a nil interface value the method call panics. *)
Definition NewInsertMotorcycleViewModel (id : Z) (message : string)
    (err : option Go.error) : Result :=
  let viewModel := mkViewModel id message err in
  match Validate viewModel with
  | Some msgErr =>
      match Error viewModel with
      | Some e => Returned None (Some (Go.errors_Wrap msgErr e))
      | None => Panicked
      end
  | None => Returned (Some viewModel) None
  end.

Definition Handle (responseMessage : InsertMotorcycleResponse) : Result :=
  match RespError responseMessage with
  | Some e => NewInsertMotorcycleViewModel InvalidEntityID e (Some e)
  | None =>
      NewInsertMotorcycleViewModel (RespID responseMessage)
        "Successfully inserted a new motorcycle." None
  end.

End WithConstants.

End Viewmodel.

(* ===================================================================== *)
(** * Properties                                                          *)
(* ===================================================================== *)

(** ** sort.Search and int arithmetic *)
Module GoFacts.
Import Go.

Lemma wrap_in_range z : min_int <= z <= max_int -> wrap z = z.
Proof.
  unfold wrap, min_int, max_int. intros Hz.
  rewrite Z.mod_small by lia. lia.
Qed.

Lemma add_no_overflow a b :
  min_int <= a + b <= max_int -> add a b = a + b.
Proof. apply wrap_in_range. Qed.

(** The counter falls back to the smallest int once it has reached the
    largest. *)
Lemma add_wraps_at_max : add max_int 1 = min_int.
Proof. reflexivity. Qed.

Lemma div2_between i j : (i < j)%nat -> (i <= Nat.div2 (i + j) < j)%nat.
Proof.
  intros Hij. pose proof (Nat.div2_odd (i + j)) as Hd.
  destruct (Nat.odd (i + j)); simpl in Hd; lia.
Qed.

(** The loop never leaves the interval it is given. *)
Lemma Search_loop_bounds f i j :
  (i <= j)%nat -> (i <= Search_loop f i j <= j)%nat.
Proof.
  funelim (Search_loop f i j); intros Hij.
  - lia.
  - pose proof (div2_between i j l).
    match goal with IH : _ -> (_ <= Search_loop _ _ _ <= _)%nat |- _ =>
      specialize (IH ltac:(lia)) end. lia.
  - pose proof (div2_between i j l).
    match goal with IH : _ -> (_ <= Search_loop _ _ _ <= _)%nat |- _ =>
      specialize (IH ltac:(lia)) end. lia.
Qed.

(** When [f] is false below [t] and true from [t] on, the loop finds
    [t]: the contract of sort.Search. *)
Lemma Search_loop_threshold f i j t :
  (i <= t <= j)%nat ->
  (forall k, (i <= k < t)%nat -> f k = false) ->
  (forall k, (t <= k < j)%nat -> f k = true) ->
  Search_loop f i j = t.
Proof.
  revert t. funelim (Search_loop f i j); intros t Ht Hlo Hhi.
  - lia.
  - pose proof (div2_between i j l) as Hh.
    match goal with IH : forall t, _ -> _ -> _ -> Search_loop _ _ _ = t |- _ =>
      apply IH end.
    + destruct (decide (t <= Nat.div2 (i + j))%nat); [lia|].
      rewrite Hlo in Heq by lia. discriminate.
    + intros k Hk. apply Hlo. lia.
    + intros k Hk. apply Hhi. lia.
  - pose proof (div2_between i j l) as Hh.
    match goal with IH : forall t, _ -> _ -> _ -> Search_loop _ _ _ = t |- _ =>
      apply IH end.
    + destruct (decide (Nat.div2 (i + j) < t)%nat); [lia|].
      rewrite Hhi in Heq by lia. discriminate.
    + intros k Hk. apply Hlo. lia.
    + intros k Hk. apply Hhi. lia.
Qed.

(** One turn of the loop. *)
Lemma Search_loop_unfold f i j :
  Search_loop f i j =
  if decide (i < j)%nat
  then if f (Nat.div2 (i + j))
       then Search_loop f i (Nat.div2 (i + j))
       else Search_loop f (S (Nat.div2 (i + j))) j
  else i.
Proof.
  funelim (Search_loop f i j); rewrite ?Heq0, ?Heq; reflexivity.
Qed.

(** The loop only ever asks [f] about indices below [j]: what [f] says
    from [j] on does not matter. *)
Lemma Search_loop_ext f g i j :
  (forall k, (k < j)%nat -> f k = g k) ->
  Search_loop f i j = Search_loop g i j.
Proof.
  revert g. funelim (Search_loop f i j); intros g Hext;
    rewrite (Search_loop_unfold g); rewrite ?Heq0, ?Heq.
  - reflexivity.
  - pose proof (div2_between i j l) as Hh.
    rewrite <- Hext, Heq by lia.
    match goal with IH : forall g, _ -> Search_loop _ _ _ = Search_loop g _ _ |- _ =>
      apply IH end.
    intros k Hk. apply Hext. lia.
  - pose proof (div2_between i j l) as Hh.
    rewrite <- Hext, Heq by lia.
    match goal with IH : forall g, _ -> Search_loop _ _ _ = Search_loop g _ _ |- _ =>
      apply IH end.
    intros k Hk. apply Hext. lia.
Qed.

Lemma Search_bounds n f : (Search n f <= n)%nat.
Proof. unfold Search. pose proof (Search_loop_bounds f 0 n). lia. Qed.

Lemma Search_threshold n f t :
  (t <= n)%nat ->
  (forall k, (k < t)%nat -> f k = false) ->
  (forall k, (t <= k < n)%nat -> f k = true) ->
  Search n f = t.
Proof.
  intros Ht Hlo Hhi. apply Search_loop_threshold; [lia| |assumption].
  intros k Hk. apply Hlo. lia.
Qed.

End GoFacts.

(** ** The repository *)
Module RepositoryProofs.
Import Go Entities Repositories GoFacts.

Lemma sorted_lookup_lt (l : list Z) i j x y :
  StronglySorted Z.lt l -> l !! i = Some x -> l !! j = Some y ->
  (i < j)%nat -> x < y.
Proof.
  intros Hs. revert i j. induction Hs as [|a l Hs IH Hall]; intros i j Hi Hj Hlt.
  - rewrite lookup_nil in Hi. discriminate.
  - destruct j as [|j]; [lia|]. destruct i as [|i]; simpl in *.
    + inversion Hi; subst. rewrite Forall_forall in Hall.
      apply Hall. eapply list_elem_of_lookup_2. eassumption.
    + eapply IH; eauto. lia.
Qed.

Lemma ids_lookup s i m : Motorcycles s !! i = Some m -> ids s !! i = Some (ID m).
Proof. intros H. unfold ids. rewrite list_lookup_fmap, H. reflexivity. Qed.

(** [findByID] answers an index only where the requested ID sits, and
    [-1] with the error otherwise. *)
Lemma findByID_cases s id :
  (exists i m, findByID s id = (Z.of_nat i, None)
               /\ Motorcycles s !! i = Some m /\ ID m = id)
  \/ findByID s id = (-1, Some err_not_found).
Proof.
  unfold findByID, id_is.
  destruct (_ <? _)%nat eqn:Hlt; simpl; [|right; reflexivity].
  destruct (Motorcycles s !! _) as [m|] eqn:Hm; [|right; reflexivity].
  destruct (ID m =? id) eqn:Hid; [|right; reflexivity].
  left. eexists _, m. split; [reflexivity|]. split; [exact Hm|lia].
Qed.

Lemma findByID_absent s id :
  id ∉ ids s -> findByID s id = (-1, Some err_not_found).
Proof.
  intros Hnot. destruct (findByID_cases s id) as [(i & m & _ & Hm & Hid)|H]; [|exact H].
  exfalso. apply Hnot. subst id. unfold ids.
  apply list_elem_of_fmap. exists m. split; [reflexivity|].
  eapply list_elem_of_lookup_2; eassumption.
Qed.

(** On strictly ascending IDs the binary search is exact. *)
Lemma findByID_sorted s k m :
  sorted_by_ID s -> Motorcycles s !! k = Some m ->
  findByID s (ID m) = (Z.of_nat k, None).
Proof.
  intros Hs Hk. unfold findByID.
  pose proof (lookup_lt_Some _ _ _ Hk) as Hlen.
  assert (Search (length (Motorcycles s)) (id_ge (Motorcycles s) (ID m)) = k) as ->.
  { apply Search_threshold; [lia| |].
    - intros j Hj. unfold id_ge.
      destruct (Motorcycles s !! j) as [mj|] eqn:Hmj; [|reflexivity].
      pose proof (sorted_lookup_lt _ _ _ _ _ Hs (ids_lookup _ _ _ Hmj)
                    (ids_lookup _ _ _ Hk) Hj). lia.
    - intros j Hj. unfold id_ge.
      destruct (lookup_lt_is_Some_2 (Motorcycles s) j ltac:(lia)) as [mj Hmj].
      rewrite Hmj. destruct (decide (j = k)) as [->|Hne].
      + rewrite Hk in Hmj. inversion Hmj. lia.
      + pose proof (sorted_lookup_lt _ _ _ _ _ Hs (ids_lookup _ _ _ Hk)
                      (ids_lookup _ _ _ Hmj) ltac:(lia)). lia. }
  unfold id_is. rewrite Hk.
  destruct (k <? _)%nat eqn:E; [|apply Nat.ltb_ge in E; lia].
  rewrite Z.eqb_refl. reflexivity.
Qed.

Lemma findByID_present_sorted s id :
  sorted_by_ID s -> id ∈ ids s ->
  exists k m, Motorcycles s !! k = Some m /\ ID m = id
              /\ findByID s id = (Z.of_nat k, None).
Proof.
  intros Hs Hin. unfold ids in Hin. apply list_elem_of_fmap in Hin as (m & -> & Hm).
  apply list_elem_of_lookup in Hm as [k Hk].
  exists k, m. split; [exact Hk|]. split; [reflexivity|].
  apply findByID_sorted; assumption.
Qed.

Lemma sorted_remove_middle (l1 l2 : list Z) x :
  StronglySorted Z.lt (l1 ++ x :: l2) -> StronglySorted Z.lt (l1 ++ l2).
Proof.
  rewrite !StronglySorted_app, StronglySorted_cons.
  intros (Hcross & H1 & _ & H2). split; [|split; assumption].
  intros a b Ha Hb. apply Hcross; [assumption|]. apply list_elem_of_further, Hb.
Qed.

Lemma removeIndex_ids s k m :
  Motorcycles s !! k = Some m ->
  ID <$> removeIndex s k = take k (ids s) ++ drop (S k) (ids s)
  /\ ids s = take k (ids s) ++ ID m :: drop (S k) (ids s).
Proof.
  intros Hk. unfold removeIndex, ids. split.
  - rewrite fmap_app, fmap_take, fmap_drop. replace (k + 1)%nat with (S k) by lia.
    reflexivity.
  - symmetry. apply take_drop_middle. rewrite list_lookup_fmap, Hk. reflexivity.
Qed.

Section WithValidate.

Variable Validate : Motorcycle -> option Go.error.

Local Abbreviation Insert := (Repositories.Insert Validate).
Local Abbreviation Update := (Repositories.Update Validate).
Local Abbreviation step := (Repositories.step Validate).
Local Abbreviation run := (Repositories.run Validate).

(** *** One call at a time *)

Lemma Insert_found s motorcycle now i :
  fst (findByID s (ID motorcycle)) = i -> i <> -1 ->
  Insert s motorcycle now = mkOutcome s motorcycle None (Some err_ID_exists).
Proof.
  intros Hi Hne. unfold Repositories.Insert.
  destruct (findByID s (ID motorcycle)) as [i' e]. simpl in Hi. subst i'.
  unfold kPrimaryKeyID_DoesNotExist.
  destruct (Z.eqb_spec i (-1)); [lia|]. reflexivity.
Qed.

Lemma Insert_not_found s motorcycle now :
  fst (findByID s (ID motorcycle)) = -1 ->
  Insert s motorcycle now =
  match Validate (stamped s motorcycle now) with
  | Some e => mkOutcome (snd (getNextID s)) (stamped s motorcycle now) None (Some e)
  | None =>
      mkOutcome (mkStore (Go.add (nextID s) 1)
                   (Motorcycles s ++ [stamped s motorcycle now]))
        (stamped s motorcycle now) (Some (stamped s motorcycle now)) None
  end.
Proof.
  intros Hi. unfold Repositories.Insert, stamped.
  destruct (findByID s (ID motorcycle)) as [i' e]. simpl in Hi. subst i'.
  reflexivity.
Qed.

Lemma findByID_fst s id :
  fst (findByID s id) = -1
  \/ exists i m, fst (findByID s id) = Z.of_nat i
                 /\ Motorcycles s !! i = Some m /\ ID m = id.
Proof.
  destruct (findByID_cases s id) as [(i & m & H & Hm & Hid)|H]; rewrite H.
  - right. exists i, m. auto.
  - left. reflexivity.
Qed.

Lemma Update_not_found s motorcycle now :
  fst (findByID s (ID motorcycle)) = -1 ->
  Update s motorcycle now = mkOutcome s motorcycle None (Some err_update_missing).
Proof.
  intros Hi. unfold Repositories.Update.
  destruct (findByID s (ID motorcycle)) as [i' e]. simpl in Hi. subst i'.
  reflexivity.
Qed.

Lemma Update_found s motorcycle now k :
  fst (findByID s (ID motorcycle)) = Z.of_nat k ->
  Update s motorcycle now =
  match Validate (set_ModifiedUtc motorcycle now) with
  | Some e => mkOutcome s (set_ModifiedUtc motorcycle now) None (Some e)
  | None =>
      mkOutcome (mkStore (nextID s)
                   (<[k := set_ModifiedUtc motorcycle now]> (Motorcycles s)))
        (set_ModifiedUtc motorcycle now)
        (Some (set_ModifiedUtc motorcycle now)) None
  end.
Proof.
  intros Hi. unfold Repositories.Update.
  destruct (findByID s (ID motorcycle)) as [i' e]. simpl in Hi. subst i'.
  unfold kPrimaryKeyID_DoesNotExist.
  destruct (Z.eqb_spec (Z.of_nat k) (-1)); [lia|]. rewrite Nat2Z.id. reflexivity.
Qed.

Lemma Delete_not_found s motorcycle :
  fst (findByID s (ID motorcycle)) = -1 ->
  Delete s motorcycle = (s, Some err_delete_missing).
Proof.
  intros Hi. unfold Delete.
  destruct (findByID s (ID motorcycle)) as [i' e]. simpl in Hi. subst i'.
  reflexivity.
Qed.

Lemma Delete_found s motorcycle k :
  fst (findByID s (ID motorcycle)) = Z.of_nat k ->
  Delete s motorcycle = (mkStore (nextID s) (removeIndex s k), None).
Proof.
  intros Hi. unfold Delete.
  destruct (findByID s (ID motorcycle)) as [i' e]. simpl in Hi. subst i'.
  unfold kPrimaryKeyID_DoesNotExist.
  destruct (Z.eqb_spec (Z.of_nat k) (-1)); [lia|]. rewrite Nat2Z.id. reflexivity.
Qed.

(** [Update] never changes which IDs are stored, nor their order. *)
Lemma Update_ids s motorcycle now :
  ids (store (Update s motorcycle now)) = ids s.
Proof.
  destruct (findByID_fst s (ID motorcycle)) as [H|(k & m & H & Hm & Hid)].
  - rewrite Update_not_found by assumption. reflexivity.
  - rewrite (Update_found _ _ _ k) by assumption.
    destruct (Validate _); [reflexivity|]. unfold ids. simpl.
    rewrite list_fmap_insert. apply list_insert_id.
    rewrite list_lookup_fmap, Hm. simpl. congruence.
Qed.

Lemma Update_nextID s motorcycle now :
  nextID (store (Update s motorcycle now)) = nextID s.
Proof.
  destruct (findByID_fst s (ID motorcycle)) as [H|(k & m & H & Hm & Hid)].
  - rewrite Update_not_found by assumption. reflexivity.
  - rewrite (Update_found _ _ _ k) by assumption.
    destruct (Validate _); reflexivity.
Qed.

(** *** The representation invariant along a run

    As long as the counter has room to grow, every call keeps the IDs
    strictly ascending and below the counter, and every ID handed out
    lies above the counter's former value. *)
Lemma getNextID_no_overflow s :
  min_int <= nextID s -> nextID s < max_int ->
  getNextID s = (nextID s + 1, mkStore (nextID s + 1) (Motorcycles s)).
Proof.
  intros Hlo Hhi. unfold getNextID.
  rewrite add_no_overflow by (unfold min_int, max_int in *; lia). reflexivity.
Qed.

Lemma step_invariant s o :
  min_int <= nextID s -> nextID s < max_int ->
  sorted_by_ID s -> counter_covers s ->
  sorted_by_ID (step s o) /\ counter_covers (step s o)
  /\ nextID s <= nextID (step s o) <= nextID s + 1
  /\ Forall (fun id => nextID s < id <= nextID (step s o)) (assigned s o).
Proof.
  intros Hlo Hhi Hs Hc. pose proof (getNextID_no_overflow s Hlo Hhi) as Hnext.
  destruct o as [m now|m now|m| |]; cbn [Repositories.step assigned].
  - (* Insert *)
    destruct (findByID_fst s (ID m)) as [H|(k & m0 & H & Hm & Hid)].
    + rewrite Insert_not_found by assumption. unfold stamped.
      rewrite H, Hnext. simpl.
      assert (Hadd : Go.add (nextID s) 1 = nextID s + 1)
        by (apply add_no_overflow; unfold min_int, max_int in *; lia).
      destruct (Validate _); simpl.
      * repeat split; try lia; try assumption.
        { eapply Forall_impl; [exact Hc|]. simpl. intros; lia. }
        { repeat constructor; lia. }
      * rewrite Hadd. unfold sorted_by_ID, counter_covers, ids in *. simpl.
        rewrite fmap_app. simpl. repeat split; try lia.
        { apply StronglySorted_app. split; [|split; [assumption|]].
          - intros a b Ha Hb. apply list_elem_of_singleton in Hb. subst b.
            rewrite Forall_forall in Hc. specialize (Hc a Ha). lia.
          - repeat constructor. }
        { apply Forall_app. split.
          - eapply Forall_impl; [exact Hc|]. simpl. intros; lia.
          - repeat constructor. lia. }
        { repeat constructor; lia. }
    + rewrite (Insert_found _ _ _ (Z.of_nat k)) by (assumption || lia).
      rewrite H. unfold kPrimaryKeyID_DoesNotExist.
      destruct (Z.eqb_spec (Z.of_nat k) (-1)); [lia|]. simpl.
      repeat split; try lia; try assumption. constructor.
  - (* Update *)
    unfold sorted_by_ID, counter_covers.
    rewrite Update_ids, Update_nextID.
    repeat split; try lia; try assumption. constructor.
  - (* Delete *)
    destruct (findByID_fst s (ID m)) as [H|(k & m0 & H & Hm & Hid)].
    + rewrite Delete_not_found by assumption. simpl.
      repeat split; try lia; try assumption. constructor.
    + rewrite (Delete_found _ _ k) by assumption. simpl.
      destruct (removeIndex_ids s k m0 Hm) as [Hrem Hsplit].
      unfold sorted_by_ID, counter_covers in *.
      change (ids (mkStore (nextID s) (removeIndex s k)))
        with (ID <$> removeIndex s k).
      rewrite Hrem. rewrite Hsplit in Hs, Hc.
      repeat split; try lia.
      * eapply sorted_remove_middle; eassumption.
      * apply Forall_app in Hc as [Hc1 Hc2]. apply Forall_cons in Hc2 as [_ Hc2].
        apply Forall_app. split; assumption.
      * constructor.
  - (* Save *)
    simpl. repeat split; try lia; try assumption. constructor.
  - (* Insert on another repository *)
    rewrite Hnext. simpl. repeat split; try lia; try assumption.
    + eapply Forall_impl; [exact Hc|]. simpl. intros; lia.
    + repeat constructor; lia.
Qed.

Lemma run_invariant ops : forall s,
  min_int <= nextID s -> nextID s + Z.of_nat (length ops) <= max_int ->
  sorted_by_ID s -> counter_covers s ->
  sorted_by_ID (run s ops) /\ counter_covers (run s ops)
  /\ nextID s <= nextID (run s ops) <= nextID s + Z.of_nat (length ops)
  /\ Forall (fun id => nextID s < id <= nextID (run s ops))
            (history Validate s ops).
Proof.
  induction ops as [|o ops IH]; intros s Hlo Hhi Hs Hc.
  - simpl. repeat split; try lia; try assumption. constructor.
  - simpl length in Hhi.
    destruct (step_invariant s o Hlo ltac:(lia) Hs Hc) as (Hs1 & Hc1 & Hn1 & Ha1).
    destruct (IH (step s o) ltac:(lia) ltac:(lia) Hs1 Hc1) as (Hs2 & Hc2 & Hn2 & Ha2).
    simpl. fold (run (step s o) ops). repeat split; try lia; try assumption.
    apply Forall_app. split.
    + eapply Forall_impl; [exact Ha1|]. simpl. intros; lia.
    + eapply Forall_impl; [exact Ha2|]. simpl. intros; lia.
Qed.

(** A repository fresh from [NewMotorcycleRepository], created when the
    shared counter stands at [n0], then used for the calls [ops]. *)
Lemma reachable_invariant n0 ops :
  0 <= n0 -> n0 + Z.of_nat (length ops) <= max_int ->
  let s := run (NewMotorcycleRepository n0) ops in
  sorted_by_ID s /\ counter_covers s
  /\ n0 <= nextID s <= n0 + Z.of_nat (length ops)
  /\ Forall (fun id => n0 < id <= nextID s)
            (history Validate (NewMotorcycleRepository n0) ops).
Proof.
  intros H0 Hmax. apply (run_invariant ops (NewMotorcycleRepository n0)); simpl.
  - unfold min_int. lia.
  - exact Hmax.
  - constructor.
  - constructor.
Qed.

(** *** Insert *)

(** C2. In a repository created by [NewMotorcycleRepository] and used
    through Insert, Update, Delete and Save only (with Inserts on other
    repositories possibly moving the shared counter), as long as the
    64-bit counter has not run out of room, a successful Insert gives
    the entity the ID [nextID + 1]: an ID that is not in the
    collection, greater than every stored ID and greater than every ID
    handed out before; it sets CreatedUtc to the current time, and
    appends exactly that entity to the collection. *)
Theorem Insert_assigns_fresh_increasing_ID n0 ops motorcycle now :
  0 <= n0 -> n0 + Z.of_nat (length ops) < max_int ->
  err (Insert (run (NewMotorcycleRepository n0) ops) motorcycle now) = None ->
  let s := run (NewMotorcycleRepository n0) ops in
  let out := Insert s motorcycle now in
  let m' := set_CreatedUtc (set_ID motorcycle (nextID s + 1)) now in
  returned out = Some m' /\ entity out = m'
  /\ ID m' = nextID s + 1 /\ CreatedUtc m' = now
  /\ (ID m' ∉ ids s)
  /\ Forall (fun id => id < ID m') (ids s)
  /\ Forall (fun id => id < ID m')
            (history Validate (NewMotorcycleRepository n0) ops)
  /\ store out = mkStore (ID m') (Motorcycles s ++ [m']).
Proof.
  intros H0 Hmax Herr s out m'.
  destruct (reachable_invariant n0 ops H0 ltac:(lia)) as (Hs & Hc & Hn & Hh).
  fold s in Hs, Hc, Hn, Hh, Herr.
  assert (Hnext : getNextID s = (nextID s + 1, mkStore (nextID s + 1) (Motorcycles s))).
  { apply getNextID_no_overflow; unfold min_int; lia. }
  assert (Hadd : Go.add (nextID s) 1 = nextID s + 1).
  { unfold getNextID in Hnext. congruence. }
  assert (Hbelow : Forall (fun id => id < nextID s + 1) (ids s)).
  { eapply Forall_impl; [exact Hc|]. simpl. intros; lia. }
  subst out. destruct (findByID_fst s (ID motorcycle)) as [H|(k & m0 & H & Hm & Hid)].
  - rewrite Insert_not_found in Herr |- * by assumption.
    unfold stamped in *. rewrite Hnext in *. simpl in *. fold m' in Herr |- *.
    destruct (Validate m'); [discriminate|]. simpl. rewrite Hadd.
    repeat split; try assumption.
    + intros Hin. rewrite Forall_forall in Hbelow. specialize (Hbelow _ Hin). lia.
    + eapply Forall_impl; [exact Hh|]. simpl. intros; lia.
  - rewrite (Insert_found _ _ _ (Z.of_nat k)) in Herr by (assumption || lia).
    discriminate.
Qed.

(** Where [Insert] does reject a stored ID: on ascending IDs. *)
Lemma Insert_rejects_present_ID_sorted s motorcycle now :
  sorted_by_ID s -> ID motorcycle ∈ ids s ->
  Insert s motorcycle now = mkOutcome s motorcycle None (Some err_ID_exists).
Proof.
  intros Hs Hin.
  destruct (findByID_present_sorted s _ Hs Hin) as (k & m & _ & _ & Hf).
  apply (Insert_found _ _ _ (Z.of_nat k)); [rewrite Hf; reflexivity|lia].
Qed.

(** C9. When [Insert] gets past the ID check and validation then
    rejects the stamped entity, the error is the validator's and the
    collection is as before, yet the shared counter has moved on by one
    and the caller's entity carries the new ID and CreatedUtc. The ID so
    consumed is not stored, and no later call brings it into the
    collection (while the 64-bit counter has room). *)
Theorem Insert_validation_failure_side_effects n0 ops motorcycle now e later :
  0 <= n0 ->
  n0 + Z.of_nat (length ops) + 1 + Z.of_nat (length later) <= max_int ->
  fst (findByID (run (NewMotorcycleRepository n0) ops) (ID motorcycle))
    = kPrimaryKeyID_DoesNotExist ->
  Validate (stamped (run (NewMotorcycleRepository n0) ops) motorcycle now)
    = Some e ->
  let s := run (NewMotorcycleRepository n0) ops in
  let out := Insert s motorcycle now in
  err out = Some e /\ returned out = None
  /\ Motorcycles (store out) = Motorcycles s
  /\ nextID (store out) = nextID s + 1
  /\ entity out = set_CreatedUtc (set_ID motorcycle (nextID s + 1)) now
  /\ ID (entity out) = nextID s + 1 /\ CreatedUtc (entity out) = now
  /\ (nextID s + 1 ∉ ids (store out))
  /\ (nextID s + 1 ∉ ids (run (store out) later)).
Proof.
  intros H0 Hmax Hnf Hval s out.
  destruct (reachable_invariant n0 ops H0 ltac:(lia)) as (Hs & Hc & Hn & _).
  fold s in Hs, Hc, Hn, Hnf, Hval.
  assert (Hnext : getNextID s = (nextID s + 1, mkStore (nextID s + 1) (Motorcycles s))).
  { apply getNextID_no_overflow; unfold min_int; lia. }
  subst out. rewrite Insert_not_found by assumption. rewrite Hval.
  unfold stamped. rewrite Hnext. simpl.
  assert (Hout : nextID s + 1 ∉ ids s).
  { intros Hin. unfold counter_covers in Hc. rewrite Forall_forall in Hc.
    specialize (Hc _ Hin). lia. }
  repeat split; try assumption.
  assert (Hgen : forall ops' t, nextID s + 1 <= nextID t ->
               nextID t + Z.of_nat (length ops') <= max_int ->
               nextID s + 1 ∉ ids t -> nextID s + 1 ∉ ids (run t ops')).
    { clear - Hn H0. induction ops' as [|o ops' IH]; intros t Hle Hroom Hnot; [exact Hnot|].
      simpl length in Hroom. simpl. fold (run (step t o) ops').
      assert (Hnx : getNextID t = (nextID t + 1, mkStore (nextID t + 1) (Motorcycles t))).
      { apply getNextID_no_overflow; unfold min_int, max_int in *; lia. }
      assert (Hstep : nextID t <= nextID (step t o) <= nextID t + 1
                      /\ nextID s + 1 ∉ ids (step t o)).
      { destruct o as [m now|m now|m| |]; cbn [Repositories.step].
        - destruct (findByID_fst t (ID m)) as [H|(k & m0 & H & Hm & Hid)].
          + rewrite Insert_not_found by assumption. unfold stamped.
            rewrite Hnx. simpl.
            assert (Hadd : Go.add (nextID t) 1 = nextID t + 1)
              by (unfold getNextID in Hnx; congruence).
            destruct (Validate _); simpl; [split; [lia|exact Hnot]|].
            rewrite Hadd. split; [lia|]. unfold ids in *. simpl.
            rewrite fmap_app. simpl. intros Hin.
            apply elem_of_app in Hin as [Hin|Hin]; [exact (Hnot Hin)|].
            apply list_elem_of_singleton in Hin. lia.
          + rewrite (Insert_found _ _ _ (Z.of_nat k)) by (assumption || lia).
            simpl. split; [lia|exact Hnot].
        - rewrite Update_ids, Update_nextID. split; [lia|exact Hnot].
        - destruct (findByID_fst t (ID m)) as [H|(k & m0 & H & Hm & Hid)].
          + rewrite Delete_not_found by assumption. simpl. split; [lia|exact Hnot].
          + rewrite (Delete_found _ _ k) by assumption. simpl. split; [lia|].
            destruct (removeIndex_ids t k m0 Hm) as [Hrem Hsplit].
            change (ids (mkStore (nextID t) (removeIndex t k)))
              with (ID <$> removeIndex t k).
            rewrite Hrem. rewrite Hsplit in Hnot. intros Hin. apply Hnot.
            apply elem_of_app in Hin as [Hin|Hin]; apply elem_of_app;
              [left; exact Hin|right; apply list_elem_of_further, Hin].
        - simpl. split; [lia|exact Hnot].
        - rewrite Hnx. simpl. split; [lia|exact Hnot]. }
      destruct Hstep as [Hn1 Hnot1]. apply IH; [lia|lia|exact Hnot1]. }
  apply Hgen; simpl; [lia|lia|exact Hout].
Qed.

(** *** Lookups *)

(** C4. Whatever calls (Insert, Update, Delete, Save) a client makes on
    a repository created by [NewMotorcycleRepository], the collection
    stays in strictly ascending ID order while the 64-bit counter has
    room; hence [findByID] returns the index of any stored record when
    asked for its ID, and [FindByID] that record. *)
Theorem reachable_sorted_findByID_exact n0 ops :
  0 <= n0 -> n0 + Z.of_nat (length ops) <= max_int ->
  let s := run (NewMotorcycleRepository n0) ops in
  sorted_by_ID s
  /\ forall k m, Motorcycles s !! k = Some m ->
       findByID s (ID m) = (Z.of_nat k, None)
       /\ FindByID s (ID m) = (Some m, None).
Proof.
  intros H0 Hmax s.
  destruct (reachable_invariant n0 ops H0 Hmax) as (Hs & _). fold s in Hs.
  split; [exact Hs|]. intros k m Hk.
  pose proof (findByID_sorted s k m Hs Hk) as Hf. split; [exact Hf|].
  unfold FindByID. rewrite Hf, Nat2Z.id. rewrite Hk. reflexivity.
Qed.

(** C3. Two valid motorcycles inserted one after the other into a new
    repository, the second not at or above the first in make, model
    and year together: the first is stored, [FindByID] retrieves it by
    its ID, and yet [Find] on that very record fails, because its
    binary search takes the collection to be ordered by make, model and
    year while [Insert] appends in ID order. *)
Theorem Find_misses_stored_motorcycle a b t1 t2 :
  Validate (stamped (NewMotorcycleRepository nextID_init) a t1) = None ->
  Validate (stamped (store (Insert (NewMotorcycleRepository nextID_init) a t1))
              b t2) = None ->
  ID b <> 1 ->
  Go.string_ge (Make b) (Make a) && Go.string_ge (Model b) (Model a)
    && (Year a <=? Year b) = false ->
  exists ops m,
    let s := run (NewMotorcycleRepository nextID_init) ops in
    m ∈ Motorcycles s /\ ID m ∈ ids s
    /\ FindByID s (ID m) = (Some m, None)
    /\ fst (Find s m) = None /\ snd (Find s m) <> None.
Proof.
  intros Hva Hvb Hidb Hord.
  set (s0 := NewMotorcycleRepository nextID_init) in *.
  set (a' := stamped s0 a t1) in *.
  assert (Hs1 : store (Insert s0 a t1) = mkStore 1 [a']).
  { rewrite Insert_not_found.
    - fold a'. rewrite Hva. reflexivity.
    - rewrite findByID_absent; [reflexivity|]. apply not_elem_of_nil. }
  rewrite Hs1 in Hvb. set (s1 := mkStore 1 [a']) in *.
  set (b' := stamped s1 b t2) in *.
  assert (Hida : ID a' = 1) by reflexivity.
  assert (Hidb' : ID b' = 2) by reflexivity.
  assert (Hs2 : store (Insert s1 b t2) = mkStore 2 [a'; b']).
  { rewrite Insert_not_found.
    - fold b'. rewrite Hvb. reflexivity.
    - rewrite findByID_absent; [reflexivity|].
      change (ids s1) with [ID a']. rewrite Hida.
      intros Hin. apply list_elem_of_singleton in Hin. contradiction. }
  exists [OpInsert a t1; OpInsert b t2], a'. simpl.
  fold s0. rewrite Hs1. fold s1. rewrite Hs2.
  set (s2 := mkStore 2 [a'; b']).
  assert (Hsorted : sorted_by_ID s2).
  { unfold sorted_by_ID. change (ids s2) with [ID a'; ID b'].
    rewrite Hida, Hidb'. repeat constructor; lia. }
  change (Go.add nextID_init 1) with (ID a').
  split; [apply list_elem_of_here|].
  split; [apply list_elem_of_here|].
  split.
  { unfold FindByID. rewrite (findByID_sorted s2 0 a' Hsorted eq_refl). reflexivity. }
  assert (Hf1 : make_model_year_ge [a'; b'] a' 1 = false).
  { unfold make_model_year_ge. simpl. exact Hord. }
  assert (Hsearch : Search 2 (make_model_year_ge [a'; b'] a') = 2%nat).
  { unfold Search. rewrite Search_loop_unfold.
    destruct (decide (0 < 2)%nat); [|lia].
    change (Nat.div2 (0 + 2)) with 1%nat. rewrite Hf1.
    rewrite Search_loop_unfold. destruct (decide (2 < 2)%nat); [lia|reflexivity]. }
  unfold Find. cbn [Motorcycles s2 length]. rewrite Hsearch. simpl.
  split; [reflexivity|discriminate].
Qed.

(** *** Update and Delete on ascending IDs *)

(** *** Update through any pointer *)

Lemma Update_ptr_owned s motorcycle now :
  Update_ptr Validate s (Owned motorcycle) now = Some (Update s motorcycle now).
Proof. reflexivity. Qed.

Lemma Insert_ptr_owned s motorcycle now :
  Insert_ptr Validate s (Owned motorcycle) now = Some (Insert s motorcycle now).
Proof. reflexivity. Qed.

Lemma assign_nextID s p m : nextID (assign s p m) = nextID s.
Proof. destruct p; reflexivity. Qed.

Lemma assign_other s p m j :
  p <> Stored j -> Motorcycles (assign s p m) !! j = Motorcycles s !! j.
Proof.
  destruct p as [owned|i]; simpl; intros Hne; [reflexivity|].
  apply list_lookup_insert_ne. congruence.
Qed.

Lemma assign_length s p m :
  length (Motorcycles (assign s p m)) = length (Motorcycles s).
Proof. destruct p; simpl; [reflexivity|apply length_insert]. Qed.

(** A write that keeps the ID keeps the stored IDs and their order. *)
Lemma assign_ids s p m0 m :
  deref s p = Some m0 -> ID m = ID m0 -> ids (assign s p m) = ids s.
Proof.
  destruct p as [owned|i]; simpl; intros Hd Hid; [reflexivity|].
  unfold ids. simpl. rewrite list_fmap_insert. apply list_insert_id.
  rewrite list_lookup_fmap, Hd. simpl. congruence.
Qed.

Lemma Update_ptr_not_found s p motorcycle now :
  deref s p = Some motorcycle ->
  fst (findByID s (ID motorcycle)) = -1 ->
  Update_ptr Validate s p now
  = Some (mkOutcome s motorcycle None (Some err_update_missing)).
Proof.
  intros Hd Hi. unfold Update_ptr. rewrite Hd.
  destruct (findByID s (ID motorcycle)) as [i' e]. simpl in Hi. subst i'.
  reflexivity.
Qed.

Lemma Update_ptr_found s p motorcycle now k :
  deref s p = Some motorcycle ->
  fst (findByID s (ID motorcycle)) = Z.of_nat k ->
  Update_ptr Validate s p now =
  Some
    match Validate (set_ModifiedUtc motorcycle now) with
    | Some e =>
        mkOutcome (assign s p (set_ModifiedUtc motorcycle now))
          (set_ModifiedUtc motorcycle now) None (Some e)
    | None =>
        mkOutcome
          (mkStore (nextID s)
             (<[k := set_ModifiedUtc motorcycle now]>
                (Motorcycles (assign s p (set_ModifiedUtc motorcycle now)))))
          (set_ModifiedUtc motorcycle now)
          (Some (set_ModifiedUtc motorcycle now)) None
    end.
Proof.
  intros Hd Hi. unfold Update_ptr. rewrite Hd.
  destruct (findByID s (ID motorcycle)) as [i' e]. simpl in Hi. subst i'.
  unfold kPrimaryKeyID_DoesNotExist.
  destruct (Z.eqb_spec (Z.of_nat k) (-1)); [lia|].
  rewrite Nat2Z.id, assign_nextID. reflexivity.
Qed.

(** On ascending IDs an ID sits at one index only. *)
Lemma stored_index_unique s i k a b :
  sorted_by_ID s ->
  Motorcycles s !! i = Some a -> Motorcycles s !! k = Some b ->
  ID a = ID b -> i = k.
Proof.
  intros Hs Hi Hk Hid.
  destruct (Nat.lt_trichotomy i k) as [Hlt|[Heq|Hgt]]; [|exact Heq|].
  - pose proof (sorted_lookup_lt _ _ _ _ _ Hs (ids_lookup _ _ _ Hi)
                  (ids_lookup _ _ _ Hk) Hlt). lia.
  - pose proof (sorted_lookup_lt _ _ _ _ _ Hs (ids_lookup _ _ _ Hk)
                  (ids_lookup _ _ _ Hi) Hgt). lia.
Qed.

(** C6, as the code has it, for any pointer argument (an entity the caller
    owns, or the pointer to a stored record that FindByID returns).
    Update of an entity whose ID is not stored returns an error and
    changes nothing, in any state. With the collection in ascending ID
    order, Update of an entity whose ID is stored first sets its
    ModifiedUtc and validates it. If validation passes, exactly the record
    with that ID is replaced by the entity and every other record stays as
    it was. If validation fails, the validation error is returned and no
    record is replaced: the collection is unchanged for an entity the
    caller owns, while for a pointer to the stored record that record
    already carries the new ModifiedUtc, all else unchanged. *)
Theorem Update_contract s p motorcycle now :
  deref s p = Some motorcycle ->
  ((ID motorcycle ∉ ids s) ->
   Update_ptr Validate s p now
   = Some (mkOutcome s motorcycle None (Some err_update_missing)))
  /\ (sorted_by_ID s ->
      forall k old,
        Motorcycles s !! k = Some old -> ID old = ID motorcycle ->
        let m1 := set_ModifiedUtc motorcycle now in
        (Validate m1 = None ->
         Update_ptr Validate s p now =
           Some (mkOutcome (mkStore (nextID s) (<[k := m1]> (Motorcycles s)))
                   m1 (Some m1) None)
         /\ ModifiedUtc m1 = now /\ ID m1 = ID old
         /\ <[k := m1]> (Motorcycles s) !! k = Some m1
         /\ (forall j, j <> k ->
               <[k := m1]> (Motorcycles s) !! j = Motorcycles s !! j)
         /\ length (<[k := m1]> (Motorcycles s)) = length (Motorcycles s))
        /\ (forall e, Validate m1 = Some e ->
             Update_ptr Validate s p now
             = Some (mkOutcome (assign s p m1) m1 None (Some e))
             /\ (forall owned, p = Owned owned -> assign s p m1 = s)
             /\ (forall i, p = Stored i ->
                   i = k /\ old = motorcycle
                   /\ assign s p m1
                      = mkStore (nextID s)
                          (<[k := set_ModifiedUtc old now]> (Motorcycles s)))
             /\ (forall j, j <> k ->
                   Motorcycles (assign s p m1) !! j = Motorcycles s !! j)
             /\ ids (assign s p m1) = ids s
             /\ nextID (assign s p m1) = nextID s)).
Proof.
  intros Hd. split.
  - intros Hnot. apply Update_ptr_not_found; [exact Hd|].
    rewrite findByID_absent by assumption. reflexivity.
  - intros Hs k old Hk Hid m1.
    assert (Hf : fst (findByID s (ID motorcycle)) = Z.of_nat k).
    { rewrite <- Hid, (findByID_sorted s k old Hs Hk). reflexivity. }
    assert (Hstored : forall i, p = Stored i -> i = k /\ old = motorcycle).
    { intros i ->. simpl in Hd.
      assert (i = k) as -> by (eapply stored_index_unique; eauto).
      split; [reflexivity|congruence]. }
    pose proof (lookup_lt_Some _ _ _ Hk) as Hlen.
    rewrite (Update_ptr_found s p motorcycle now k Hd Hf). fold m1. split.
    + intros Hv. rewrite Hv. repeat split.
      * do 3 f_equal. destruct p as [owned|i]; [reflexivity|].
        destruct (Hstored i eq_refl) as [-> _]. simpl.
        apply list_insert_insert_eq.
      * simpl. congruence.
      * apply list_lookup_insert_eq. exact Hlen.
      * intros j Hj. apply list_lookup_insert_ne. congruence.
      * apply length_insert.
    + intros e Hv. rewrite Hv. split; [reflexivity|].
      split; [intros owned ->; reflexivity|].
      split.
      { intros i Hp. destruct (Hstored i Hp) as [-> ->].
        split; [reflexivity|]. split; [reflexivity|]. subst p. reflexivity. }
      split.
      { intros j Hj. apply assign_other. intros Hp.
        destruct (Hstored j Hp) as [-> _]. congruence. }
      split; [|apply assign_nextID].
      apply (assign_ids s p motorcycle m1 Hd). reflexivity.
Qed.

(** Delete on ascending IDs: a missing ID is an error and changes
    nothing; a stored ID removes that one record and keeps the others
    in place and in order. *)
Lemma Delete_contract_sorted s motorcycle :
  sorted_by_ID s ->
  ((ID motorcycle ∉ ids s) -> Delete s motorcycle = (s, Some err_delete_missing))
  /\ (forall k old,
        Motorcycles s !! k = Some old -> ID old = ID motorcycle ->
        Delete s motorcycle = (mkStore (nextID s) (delete k (Motorcycles s)), None)
        /\ S (length (delete k (Motorcycles s))) = length (Motorcycles s)
        /\ (ID motorcycle ∉ ID <$> delete k (Motorcycles s))
        /\ (forall j, (j < k)%nat ->
              delete k (Motorcycles s) !! j = Motorcycles s !! j)
        /\ (forall j, (k <= j)%nat ->
              delete k (Motorcycles s) !! j = Motorcycles s !! S j)).
Proof.
  intros Hs. split.
  - intros Hnot. apply Delete_not_found. rewrite findByID_absent by assumption.
    reflexivity.
  - intros k old Hk Hid.
    assert (Hf : fst (findByID s (ID motorcycle)) = Z.of_nat k).
    { rewrite <- Hid, (findByID_sorted s k old Hs Hk). reflexivity. }
    rewrite (Delete_found _ _ k Hf). unfold removeIndex.
    replace (k + 1)%nat with (S k) by lia. rewrite <- delete_take_drop.
    pose proof (lookup_lt_Some _ _ _ Hk) as Hlen.
    repeat split.
    + rewrite length_delete by eauto. lia.
    + rewrite delete_take_drop, fmap_app, fmap_take, fmap_drop.
      destruct (removeIndex_ids s k old Hk) as [_ Hsplit].
      unfold sorted_by_ID in Hs. rewrite Hsplit in Hs. fold (ids s).
      apply StronglySorted_app in Hs as (Hcross & _ & Hs2).
      apply StronglySorted_cons in Hs2 as [Hgt _].
      rewrite <- Hid. intros Hin. apply elem_of_app in Hin as [Hin|Hin].
      * specialize (Hcross _ (ID old) Hin (list_elem_of_here _ _)). lia.
      * rewrite Forall_forall in Hgt. specialize (Hgt _ Hin). lia.
    + intros j Hj. apply list_lookup_delete_lt. exact Hj.
    + intros j Hj. apply list_lookup_delete_ge. exact Hj.
Qed.

(** *** Save *)

(** C8. Save returns nil and changes neither the collection nor the
    counter. *)
Theorem Save_is_noop s :
  snd (Save s) = None
  /\ Motorcycles (fst (Save s)) = Motorcycles s
  /\ nextID (fst (Save s)) = nextID s.
Proof. repeat split. Qed.

End WithValidate.

(** *** Concrete runs *)
Import Samples.

Lemma Insert_assigns_fresh_increasing_ID_witness :
  let s := run make_required (NewMotorcycleRepository 0) [OpInsert honda 10] in
  let out := Insert make_required s yamaha 20 in
  let m' := set_CreatedUtc (set_ID yamaha (nextID s + 1)) 20 in
  returned out = Some m' /\ entity out = m'
  /\ ID m' = nextID s + 1 /\ CreatedUtc m' = 20
  /\ (ID m' ∉ ids s)
  /\ Forall (fun id => id < ID m') (ids s)
  /\ Forall (fun id => id < ID m')
            (history make_required (NewMotorcycleRepository 0) [OpInsert honda 10])
  /\ store out = mkStore (ID m') (Motorcycles s ++ [m']).
Proof.
  apply (Insert_assigns_fresh_increasing_ID make_required 0 [OpInsert honda 10]
           yamaha 20).
  - lia.
  - unfold max_int. simpl. lia.
  - reflexivity.
Defined.

Lemma Insert_validation_failure_side_effects_witness :
  let s := run make_required (NewMotorcycleRepository 0) [OpInsert honda 10] in
  let out := Insert make_required s nameless 20 in
  err out = Some "make: cannot be blank." /\ returned out = None
  /\ Motorcycles (store out) = Motorcycles s
  /\ nextID (store out) = nextID s + 1
  /\ entity out = set_CreatedUtc (set_ID nameless (nextID s + 1)) 20
  /\ ID (entity out) = nextID s + 1 /\ CreatedUtc (entity out) = 20
  /\ (nextID s + 1 ∉ ids (store out))
  /\ (nextID s + 1 ∉ ids (run make_required (store out) [OpInsert yamaha 30])).
Proof.
  apply (Insert_validation_failure_side_effects make_required 0
           [OpInsert honda 10] nameless 20 "make: cannot be blank."
           [OpInsert yamaha 30]).
  - lia.
  - unfold max_int. simpl. lia.
  - reflexivity.
  - reflexivity.
Defined.

Lemma reachable_sorted_findByID_exact_witness :
  let s := run make_required (NewMotorcycleRepository 0)
             [OpInsert honda 10; OpInsert yamaha 20;
              OpDelete (set_ID honda 1); OpInsert honda 30] in
  sorted_by_ID s
  /\ forall k m, Motorcycles s !! k = Some m ->
       findByID s (ID m) = (Z.of_nat k, None)
       /\ FindByID s (ID m) = (Some m, None).
Proof.
  apply (reachable_sorted_findByID_exact make_required 0).
  - lia.
  - unfold max_int. simpl. lia.
Defined.

Lemma Find_misses_stored_motorcycle_witness :
  exists ops m,
    let s := run make_required (NewMotorcycleRepository nextID_init) ops in
    m ∈ Motorcycles s /\ ID m ∈ ids s
    /\ FindByID s (ID m) = (Some m, None)
    /\ fst (Find s m) = None /\ snd (Find s m) <> None.
Proof.
  apply (Find_misses_stored_motorcycle make_required yamaha honda 10 20).
  - reflexivity.
  - reflexivity.
  - simpl. lia.
  - reflexivity.
Defined.

Lemma Update_contract_witness :
  Update_ptr make_required with_nameless (Stored 0) 20
  = Some (mkOutcome
            (mkStore 1
               [set_ModifiedUtc (set_CreatedUtc (set_ID nameless 1) 10) 20])
            (set_ModifiedUtc (set_CreatedUtc (set_ID nameless 1) 10) 20)
            None (Some "make: cannot be blank.")).
Proof.
  destruct (Update_contract make_required with_nameless (Stored 0)
              (set_CreatedUtc (set_ID nameless 1) 10) 20 eq_refl)
    as [_ Hpresent].
  assert (Hs : sorted_by_ID with_nameless) by (repeat constructor).
  destruct (Hpresent Hs 0%nat (set_CreatedUtc (set_ID nameless 1) 10)
              eq_refl eq_refl) as [_ Hinvalid].
  destruct (Hinvalid "make: cannot be blank." eq_refl) as [Hupdate _].
  exact Hupdate.
Defined.

(** The repository's own unit tests, replayed. *)
Example TestMotorcycleRepository_Insert :
  let out := Insert make_required (NewMotorcycleRepository 0) honda 10 in
  length (Motorcycles (store out)) = 1%nat
  /\ Motorcycles (store out) !! 0%nat = returned out.
Proof. split; reflexivity. Qed.

Example TestMotorcycleRepository_Insert_IDAlreadyExists :
  let out := Insert make_required (NewMotorcycleRepository 0) honda 10 in
  err (Insert make_required (store out) (entity out) 20) = Some err_ID_exists.
Proof. reflexivity. Qed.

Example TestMotorcycleRepository_FindByID :
  let out := Insert make_required (NewMotorcycleRepository 0) honda 10 in
  FindByID (store out) (ID (entity out)) = (Some (entity out), None)
  /\ fst (FindByID (NewMotorcycleRepository 0) 123) = None.
Proof. split; reflexivity. Qed.

Example TestMotorcycleRepository_Update :
  let out := Insert make_required (NewMotorcycleRepository 0) honda 10 in
  let moto := mkMotorcycle (ID (entity out)) "Harley Davidson" (Model (entity out))
                (Year (entity out)) (Vin (entity out)) (CreatedUtc (entity out))
                (ModifiedUtc (entity out)) in
  Make <$> Motorcycles (store (Update make_required (store out) moto 20))
    = ["Harley Davidson"]
  /\ returned (Update make_required (NewMotorcycleRepository 0) (set_ID honda 123) 20)
     = None.
Proof. split; reflexivity. Qed.

Example TestMotorcycleRepository_Delete :
  let out := Insert make_required (NewMotorcycleRepository 0) honda 10 in
  Motorcycles (fst (Delete (store out) (entity out))) = []
  /\ snd (Delete (NewMotorcycleRepository 0) (set_ID honda 123)) <> None.
Proof. split; [reflexivity|discriminate]. Qed.

(** C6 as stated fails where validation rejects the entity: the ID is
    stored and the collection is in order, yet the record is not
    replaced. *)
Lemma Update_present_ID_not_replaced :
  let s := run make_required (NewMotorcycleRepository 0) [OpInsert honda 10] in
  let blanked := mkMotorcycle 1 "" "Shadow" 2006 "1HGCM82633A004352" 10 0 in
  sorted_by_ID s /\ ID blanked ∈ ids s
  /\ Update make_required s blanked 20 =
       mkOutcome s (set_ModifiedUtc blanked 20) None (Some "make: cannot be blank.")
  /\ Motorcycles (store (Update make_required s blanked 20))
       = [set_CreatedUtc (set_ID honda 1) 10]
  /\ Motorcycles (store (Update make_required s blanked 20)) !! 0%nat
       <> Some (set_ModifiedUtc blanked 20).
Proof.
  intros s blanked. split; [repeat constructor|].
  split; [apply list_elem_of_here|].
  split; [reflexivity|]. split; [reflexivity|]. discriminate.
Qed.

(** C5 on a collection that is not in ID order: the entity's ID 1 is
    stored, but the binary search probes index 1, then index 0 (ID 5),
    answers "not found", and Insert goes on to assign ID 6 and append. *)
Theorem Insert_accepts_present_ID_out_of_order :
  let dup := set_ID honda 1 in
  let dup' := set_CreatedUtc (set_ID dup 6) 30 in
  ID dup ∈ ids out_of_order
  /\ findByID out_of_order (ID dup) = (-1, Some err_not_found)
  /\ Insert make_required out_of_order dup 30 =
       mkOutcome (mkStore 6 (Motorcycles out_of_order ++ [dup'])) dup' (Some dup') None.
Proof.
  intros dup dup'. split; [apply list_elem_of_further, list_elem_of_here|].
  split; reflexivity.
Qed.

(** C7 on the same collection: Delete of the stored ID 1 answers that
    the motorcycle does not exist and removes nothing. *)
Theorem Delete_misses_present_ID_out_of_order :
  let target := set_ID yamaha 1 in
  ID target ∈ ids out_of_order
  /\ Delete out_of_order target = (out_of_order, Some err_delete_missing).
Proof.
  intros target. split; [apply list_elem_of_further, list_elem_of_here|reflexivity].
Qed.

End RepositoryProofs.

(** ** The insert use case *)
Module InteractorProofs.
Import Go Interactors.

Section WithCollaborators.

Variable World : Type.
Variable Role : Type.
Variable Response : Type.
Variable InvalidEntityID : Z.
Variable AdminAuthorizationRole : Role.
Variable IsAuthenticated : World -> bool * World.
Variable IsAuthorized : Role -> World -> bool * World.
Variable FindByVin :
  string -> World -> (option Entities.Motorcycle * option Go.error) * World.
Variable Insert :
  option Entities.Motorcycle -> World ->
  (option Entities.Motorcycle * option Go.error) * World.
Variable Save : World -> option Go.error * World.
Variable NewMotorcycle :
  string -> string -> Z -> string -> option Entities.Motorcycle * option Go.error.
Variable NewInsertMotorcycleResponseMessage : Z -> option Go.error -> Response.

Local Abbreviation Handle :=
  (Interactors.Handle World Role Response InvalidEntityID AdminAuthorizationRole
     IsAuthenticated IsAuthorized FindByVin Insert Save NewMotorcycle
     NewInsertMotorcycleResponseMessage).
Local Abbreviation sequential_gate :=
  (Interactors.sequential_gate World Role Response InvalidEntityID
     AdminAuthorizationRole IsAuthenticated IsAuthorized FindByVin Insert Save
     NewMotorcycle NewInsertMotorcycleResponseMessage).
Local Abbreviation run_gates :=
  (Interactors.run_gates World Role AdminAuthorizationRole IsAuthenticated
     IsAuthorized FindByVin Insert Save NewMotorcycle).

Local Abbreviation stage_of := (Interactors.stage_of Role).
Local Abbreviation NewResponse := NewInsertMotorcycleResponseMessage.

Ltac outcome :=
  repeat split; try reflexivity;
  try (left; eexists; split; reflexivity);
  try (right; eexists; repeat split; reflexivity).

(** C1. [Handle] is the sequential gate of the specification: it asks
    its collaborators in the order authentication, authorization,
    duplicate VIN, entity construction, repository Insert, repository
    Save, and stops at the first stage that rejects. Whenever a stage
    rejects, the response is built from the sentinel InvalidEntityID
    and that stage's error; the response is built from the inserted
    motorcycle's ID and no error only when all six stages have run and
    passed. *)
Theorem Handle_gates_in_order requestMessage w :
  Handle requestMessage (w, []) = sequential_gate requestMessage w
  /\ (let '(rejected, mc, w', calls) := run_gates requestMessage stages None w in
      snd (Handle requestMessage (w, [])) = (w', calls)
      /\ stage_of <$> calls = take (length calls) stages
      /\ match fst (Handle requestMessage (w, [])) with
         | Returned r =>
             (exists e, rejected = Some e
                        /\ r = NewResponse InvalidEntityID (Some e))
             \/ (exists m, rejected = None /\ mc = Some m
                           /\ stage_of <$> calls = stages
                           /\ r = NewResponse (Entities.ID m) None)
         | Panicked => rejected = None /\ mc = None
         end).
Proof.
  unfold Interactors.Handle, Interactors.sequential_gate, Interactors.run_gates,
    Interactors.gate, mbind, M_bind, bind, call, pure_call, failure, ret, stages.
  cbn.
  destruct (IsAuthenticated w) as [authenticated w1]; cbn.
  destruct authenticated; cbn; [|outcome].
  destruct (IsAuthorized AdminAuthorizationRole w1) as [authorized w2]; cbn.
  destruct authorized; cbn; [|outcome].
  destruct (FindByVin (Vin requestMessage) w2) as [[moto findErr] w3]; cbn.
  destruct moto; cbn; [outcome|].
  destruct (NewMotorcycle (Make requestMessage) (Model requestMessage)
              (Year requestMessage) (Vin requestMessage))
    as [motorcycle newErr]; cbn.
  destruct newErr; cbn; [outcome|].
  destruct (Insert motorcycle w3) as [[inserted insertErr] w4]; cbn.
  destruct insertErr; cbn; [outcome|].
  destruct (Save w4) as [saveErr w5]; cbn.
  destruct saveErr; cbn; [outcome|].
  destruct inserted; cbn; outcome.
Qed.

End WithCollaborators.

(** *** The use case over the repository *)
Import Samples.

Definition sample_Handle (authenticated admin : bool)
    (requestMessage : InsertMotorcycleRequestMessage) (w : Repositories.Store) :=
  Interactors.Handle Repositories.Store string (Z * option Go.error) (-1) "admin"
    (sample_IsAuthenticated authenticated) (sample_IsAuthorized admin)
    sample_FindByVin sample_Insert sample_Save sample_NewMotorcycle pair
    requestMessage (w, []).

Definition sample_request : InsertMotorcycleRequestMessage :=
  mkRequest "Honda" "Shadow" 2006 "1HGCM82633A004352".

Example Handle_not_authenticated :
  sample_Handle false true sample_request (Repositories.NewMotorcycleRepository 0)
  = (Returned (-1, Some (err_not_authenticated)),
     (Repositories.NewMotorcycleRepository 0, [CallIsAuthenticated string])).
Proof. reflexivity. Qed.

Example Handle_not_authorized :
  sample_Handle true false sample_request (Repositories.NewMotorcycleRepository 0)
  = (Returned (-1, Some (err_not_authorized)),
     (Repositories.NewMotorcycleRepository 0,
      [CallIsAuthenticated string; CallIsAuthorized string "admin"])).
Proof. reflexivity. Qed.

Example Handle_inserts_then_rejects_same_VIN :
  let first := sample_Handle true true sample_request
                 (Repositories.NewMotorcycleRepository 0) in
  let again := sample_Handle true true sample_request (fst (snd first)) in
  fst first = Returned (1, None)
  /\ Interactors.stage_of string <$> snd (snd first) = stages
  /\ fst again = Returned (-1, Some err_duplicate_vin)
  /\ Interactors.stage_of string <$> snd (snd again)
     = [Authenticate; Authorize; CheckVin]
  /\ fst (snd again) = fst (snd first).
Proof. repeat split; reflexivity. Qed.

End InteractorProofs.

(** ** The insert view model *)
Module ViewmodelProofs.
Import Go Viewmodel.

Lemma ValidateStruct_fails fields name msg :
  In (name, Some msg) fields -> ValidateStruct fields <> None.
Proof.
  induction fields as [|[n [m|]] rest IH]; simpl; intros Hin.
  - contradiction.
  - discriminate.
  - destruct Hin as [Heq|Hin]; [discriminate|]. apply IH, Hin.
Qed.

Lemma Validate_below_minimum MinEntityID id message error :
  id < MinEntityID ->
  Validate MinEntityID (mkViewModel id message error) <> None.
Proof.
  intros Hlt. unfold Validate.
  assert (Hid : exists msg,
             Field [Required_int id; Min MinEntityID id] = Some msg).
  { unfold Required_int, Min. simpl.
    destruct (Z.eqb_spec id 0); simpl; [eauto|].
    destruct (Z.ltb_spec id MinEntityID); [eauto|lia]. }
  destruct Hid as [msg Hid].
  apply (ValidateStruct_fails _ "id" msg). left. simpl ID. rewrite Hid. reflexivity.
Qed.

Lemma Validate_empty_message MinEntityID id error :
  Validate MinEntityID (mkViewModel id "" error) <> None.
Proof.
  unfold Validate. apply (ValidateStruct_fails _ "message" "cannot be blank").
  right. left. reflexivity.
Qed.

(** With a nil error the constructor either hands back the view model or
    panics: it has no way to return an error. *)
Lemma NewInsertMotorcycleViewModel_nil_error MinEntityID id message :
  NewInsertMotorcycleViewModel MinEntityID id message None =
  match Validate MinEntityID (mkViewModel id message None) with
  | Some _ => Panicked
  | None => Returned (Some (mkViewModel id message None)) None
  end.
Proof.
  unfold NewInsertMotorcycleViewModel. simpl.
  destruct (Validate _ _); reflexivity.
Qed.

(** C10. Called with a nil error and fields that fail validation (an ID
    below the minimum, an empty message, or any other validation
    failure), the constructor calls [Error()] on the nil Error field and
    panics; it does not return an error. *)
Theorem NewInsertMotorcycleViewModel_nil_error_panics MinEntityID id message :
  id < MinEntityID \/ message = ""
  \/ Validate MinEntityID (mkViewModel id message None) <> None ->
  NewInsertMotorcycleViewModel MinEntityID id message None = Panicked
  /\ forall vm e, NewInsertMotorcycleViewModel MinEntityID id message None
                  <> Returned vm e.
Proof.
  intros H. rewrite NewInsertMotorcycleViewModel_nil_error.
  assert (Hfail : Validate MinEntityID (mkViewModel id message None) <> None).
  { destruct H as [H|[H|H]].
    - apply Validate_below_minimum. exact H.
    - subst message. apply Validate_empty_message.
    - exact H. }
  destruct (Validate _ _); [|contradiction].
  split; [reflexivity|discriminate].
Qed.

Lemma NewInsertMotorcycleViewModel_nil_error_panics_witness :
  (0 < 1 \/ "Successfully inserted a new motorcycle." = ""
   \/ Validate 1 (mkViewModel 0 "Successfully inserted a new motorcycle." None)
      <> None)
  /\ NewInsertMotorcycleViewModel 1 0 "Successfully inserted a new motorcycle." None
     = Panicked.
Proof.
  assert (H : 0 < 1 \/ "Successfully inserted a new motorcycle." = ""
              \/ Validate 1 (mkViewModel 0 "Successfully inserted a new motorcycle." None)
                 <> None) by (left; lia).
  split; [exact H|].
  exact (proj1 (NewInsertMotorcycleViewModel_nil_error_panics 1 0
                  "Successfully inserted a new motorcycle." H)).
Defined.

(** The path on which this bites: [Handle] on an error-free response
    passes a nil error, so a response ID below the minimum panics. *)
Lemma Handle_panics_on_low_ID MinEntityID InvalidEntityID id :
  id < MinEntityID ->
  Handle MinEntityID InvalidEntityID (mkResponse id None) = Panicked.
Proof.
  intros Hlt. unfold Handle. simpl.
  rewrite NewInsertMotorcycleViewModel_nil_error.
  pose proof (Validate_below_minimum MinEntityID id
                "Successfully inserted a new motorcycle." None Hlt) as Hfail.
  destruct (Validate _ _); [reflexivity|contradiction].
Qed.

End ViewmodelProofs.


(* ===================================================================== *)
(** * Further properties of the repository                                *)
(* ===================================================================== *)
Module RepositoryExtras.
Import Go Entities Repositories GoFacts RepositoryProofs.

(** [FindByID] by cases, in any state. *)
Lemma FindByID_cases s id :
  (exists k m, FindByID s id = (Some m, None)
               /\ findByID s id = (Z.of_nat k, None)
               /\ Motorcycles s !! k = Some m /\ ID m = id)
  \/ (FindByID s id = (None, Some err_not_found)
      /\ findByID s id = (-1, Some err_not_found)).
Proof.
  unfold FindByID.
  destruct (findByID_cases s id) as [(k & m & Hf & Hm & Hid)|Hf]; rewrite Hf.
  - left. exists k, m. rewrite Nat2Z.id, Hm. auto.
  - right. split; reflexivity.
Qed.

(** X1. In every state, ordered or not, [FindByID] either hands back a
    stored record that carries the requested ID, with a nil error, or nil
    with the "not found" error; it never answers with a record of another
    ID. An ID that is not stored (so any ID on an empty repository) always
    gets the error. *)
Theorem FindByID_sound s id :
  ((exists k m, FindByID s id = (Some m, None)
                /\ Motorcycles s !! k = Some m /\ ID m = id)
   \/ FindByID s id = (None, Some err_not_found))
  /\ ((id ∉ ids s) -> FindByID s id = (None, Some err_not_found))
  /\ FindByID (NewMotorcycleRepository (nextID s)) id = (None, Some err_not_found).
Proof.
  assert (Habsent : forall t, id ∉ ids t -> FindByID t id = (None, Some err_not_found)).
  { intros t Hnot. unfold FindByID. rewrite findByID_absent by assumption. reflexivity. }
  split; [|split].
  - destruct (FindByID_cases s id) as [(k & m & H & _ & Hm & Hid)|[H _]].
    + left. exists k, m. auto.
    + right. exact H.
  - apply Habsent.
  - apply Habsent. apply not_elem_of_nil.
Qed.

(** X2. In every state, [Find] either hands back a stored record whose ID
    is the ID of the entity asked for, with a nil error, or nil with its
    error; an entity whose ID is not stored is never found. *)
Theorem Find_sound s motorcycle :
  ((exists k m, Find s motorcycle = (Some m, None)
                /\ Motorcycles s !! k = Some m /\ ID m = ID motorcycle)
   \/ Find s motorcycle = (None, Some err_find_failed))
  /\ ((ID motorcycle ∉ ids s) -> Find s motorcycle = (None, Some err_find_failed)).
Proof.
  assert (Hcases :
    (exists k m, Find s motorcycle = (Some m, None)
                 /\ Motorcycles s !! k = Some m /\ ID m = ID motorcycle)
    \/ Find s motorcycle = (None, Some err_find_failed)).
  { unfold Find, id_is.
    destruct (_ <? _)%nat; simpl; [|right; reflexivity].
    destruct (Motorcycles s !! _) as [m|] eqn:Hm; [|right; reflexivity].
    destruct (Z.eqb_spec (ID m) (ID motorcycle)); [|right; reflexivity].
    left. eexists _, m. split; [reflexivity|]. split; [exact Hm|assumption]. }
  split; [exact Hcases|]. intros Hnot.
  destruct Hcases as [(k & m & _ & Hm & Hid)|H]; [|exact H].
  exfalso. apply Hnot. rewrite <- Hid. unfold ids.
  apply list_elem_of_fmap. exists m. split; [reflexivity|].
  eapply list_elem_of_lookup_2; eassumption.
Qed.

Lemma sorted_NoDup (l : list Z) : StronglySorted Z.lt l -> NoDup l.
Proof.
  induction 1 as [|a l Hs IH Hall]; constructor; [|exact IH].
  intros Hin. rewrite Forall_forall in Hall. specialize (Hall _ Hin). lia.
Qed.

Lemma ids_delete (l : list Motorcycle) k :
  ID <$> delete k l = take k (ID <$> l) ++ drop (S k) (ID <$> l).
Proof. rewrite delete_take_drop, fmap_app, fmap_take, fmap_drop. reflexivity. Qed.

(** X6. Delete, then look up. On a collection in ascending ID order,
    deleting an entity whose ID is stored returns nil, keeps the order and
    the counter, makes [FindByID] of that ID fail with "not found", and
    leaves every other record retrievable by its ID. *)
Theorem Delete_then_FindByID s motorcycle k old :
  sorted_by_ID s ->
  Motorcycles s !! k = Some old -> ID old = ID motorcycle ->
  snd (Delete s motorcycle) = None
  /\ sorted_by_ID (fst (Delete s motorcycle))
  /\ nextID (fst (Delete s motorcycle)) = nextID s
  /\ FindByID (fst (Delete s motorcycle)) (ID motorcycle)
     = (None, Some err_not_found)
  /\ forall j m, Motorcycles s !! j = Some m -> j <> k ->
       FindByID (fst (Delete s motorcycle)) (ID m) = (Some m, None).
Proof.
  intros Hs Hk Hid.
  destruct (Delete_contract_sorted s motorcycle Hs) as [_ Hpresent].
  destruct (Hpresent k old Hk Hid) as (Hdel & _ & Hgone & Hbefore & Hafter).
  rewrite Hdel. simpl.
  set (s' := mkStore (nextID s) (delete k (Motorcycles s))).
  assert (Hs' : sorted_by_ID s').
  { unfold sorted_by_ID, ids. simpl. rewrite ids_delete.
    destruct (removeIndex_ids s k old Hk) as [_ Hsplit].
    unfold sorted_by_ID in Hs. rewrite Hsplit in Hs.
    eapply sorted_remove_middle. exact Hs. }
  split; [reflexivity|]. split; [exact Hs'|]. split; [reflexivity|]. split.
  - unfold FindByID. rewrite findByID_absent; [reflexivity|]. exact Hgone.
  - intros j m Hj Hne.
    assert (Hlook : exists j', Motorcycles s' !! j' = Some m).
    { destruct (decide (j < k)%nat).
      - exists j. simpl. rewrite Hbefore by assumption. exact Hj.
      - exists (j - 1)%nat. simpl. rewrite Hafter by lia.
        replace (S (j - 1)) with j by lia. exact Hj. }
    destruct Hlook as [j' Hj'].
    unfold FindByID. rewrite (findByID_sorted s' j' m Hs' Hj'), Nat2Z.id, Hj'.
    reflexivity.
Qed.

(** [Delete] by cases, in any state. *)
Lemma Delete_cases s motorcycle :
  Delete s motorcycle = (s, Some err_delete_missing)
  \/ exists k old,
       Motorcycles s !! k = Some old /\ ID old = ID motorcycle
       /\ Delete s motorcycle = (mkStore (nextID s) (delete k (Motorcycles s)), None)
       /\ S (length (delete k (Motorcycles s))) = length (Motorcycles s).
Proof.
  destruct (findByID_cases s (ID motorcycle)) as [(k & old & Hf & Hk & Hid)|Hf].
  - right. exists k, old. split; [exact Hk|]. split; [exact Hid|].
    rewrite (Delete_found s motorcycle k) by (rewrite Hf; reflexivity).
    unfold removeIndex. replace (k + 1)%nat with (S k) by lia.
    rewrite <- delete_take_drop. split; [reflexivity|].
    pose proof (lookup_lt_Some _ _ _ Hk).
    rewrite length_delete by eauto. lia.
  - left. apply Delete_not_found. rewrite Hf. reflexivity.
Qed.

(** X9. In every state, ordered or not, [Delete] either returns its error
    and leaves the store as it is, or returns nil having removed exactly
    one record, and that record carries the ID of the entity given; it
    never removes a record with another ID and never touches the counter. *)
Theorem Delete_sound s motorcycle :
  (Delete s motorcycle = (s, Some err_delete_missing)
   \/ exists k old,
        Motorcycles s !! k = Some old /\ ID old = ID motorcycle
        /\ Delete s motorcycle
           = (mkStore (nextID s) (delete k (Motorcycles s)), None)
        /\ S (length (delete k (Motorcycles s))) = length (Motorcycles s))
  /\ nextID (fst (Delete s motorcycle)) = nextID s
  /\ forall m, m ∈ Motorcycles (fst (Delete s motorcycle)) -> m ∈ Motorcycles s.
Proof.
  pose proof (Delete_cases s motorcycle) as Hc. split; [exact Hc|].
  destruct Hc as [H|(k & old & _ & _ & H & _)]; rewrite H; simpl.
  - auto.
  - split; [reflexivity|]. intros m Hm. eapply list_elem_of_delete_inv. exact Hm.
Qed.

Section WithValidate.

Variable Validate : Motorcycle -> option Go.error.

Local Abbreviation Insert := (Repositories.Insert Validate).
Local Abbreviation Update := (Repositories.Update Validate).
Local Abbreviation step := (Repositories.step Validate).
Local Abbreviation run := (Repositories.run Validate).

(** The two ways [Insert] can end, in any state. *)
Lemma Insert_cases s motorcycle now :
  (exists e, Insert s motorcycle now = mkOutcome s motorcycle None (Some e))
  \/ (exists e, Insert s motorcycle now =
        mkOutcome (mkStore (Go.add (nextID s) 1) (Motorcycles s))
          (stamped s motorcycle now) None (Some e))
  \/ (fst (findByID s (ID motorcycle)) = -1
      /\ Validate (stamped s motorcycle now) = None
      /\ Insert s motorcycle now =
         mkOutcome (mkStore (Go.add (nextID s) 1)
                      (Motorcycles s ++ [stamped s motorcycle now]))
           (stamped s motorcycle now) (Some (stamped s motorcycle now)) None).
Proof.
  destruct (findByID_fst s (ID motorcycle)) as [H|(k & m0 & H & _)].
  - rewrite Insert_not_found by assumption.
    destruct (Validate _) as [e|] eqn:Hv.
    + right. left. exists e. reflexivity.
    + right. right. auto.
  - left. exists err_ID_exists. apply (Insert_found _ _ _ _ (Z.of_nat k)); [assumption|lia].
Qed.

Lemma Insert_success s motorcycle now :
  err (Insert s motorcycle now) = None ->
  Insert s motorcycle now =
  mkOutcome (mkStore (Go.add (nextID s) 1)
               (Motorcycles s ++ [stamped s motorcycle now]))
    (stamped s motorcycle now) (Some (stamped s motorcycle now)) None.
Proof.
  intros Herr.
  destruct (Insert_cases s motorcycle now) as [[e H]|[[e H]|(_ & _ & H)]];
    rewrite H in Herr |- *; try discriminate. reflexivity.
Qed.

Lemma run_snoc s ops o : run s (ops ++ [o]) = step (run s ops) o.
Proof. unfold Repositories.run. rewrite fold_left_app. reflexivity. Qed.

(** After a successful Insert on a reachable repository, the store is again
    in ascending ID order. *)
Lemma Insert_success_sorted n0 ops motorcycle now :
  0 <= n0 -> n0 + Z.of_nat (length ops) < max_int ->
  sorted_by_ID (store (Insert (run (NewMotorcycleRepository n0) ops) motorcycle now))
  /\ sorted_by_ID (run (NewMotorcycleRepository n0) ops).
Proof.
  intros H0 Hmax. split.
  - change (sorted_by_ID (step (run (NewMotorcycleRepository n0) ops)
                            (OpInsert motorcycle now))).
    rewrite <- run_snoc.
    apply (reachable_invariant Validate n0 (ops ++ [OpInsert motorcycle now]) H0).
    rewrite length_app. simpl. lia.
  - apply (reachable_invariant Validate n0 ops H0). lia.
Qed.

(** X3. Insert, then look up. On a repository used through its methods
    (64-bit counter not yet exhausted), after a successful Insert
    [FindByID] with the new ID returns exactly the entity as Insert left
    it, and every record stored before is still returned for its own ID. *)
Theorem Insert_then_FindByID n0 ops motorcycle now :
  0 <= n0 -> n0 + Z.of_nat (length ops) < max_int ->
  err (Insert (run (NewMotorcycleRepository n0) ops) motorcycle now) = None ->
  let s := run (NewMotorcycleRepository n0) ops in
  let out := Insert s motorcycle now in
  FindByID (store out) (ID (entity out)) = (Some (entity out), None)
  /\ forall k m, Motorcycles s !! k = Some m ->
       FindByID (store out) (ID m) = (Some m, None).
Proof.
  intros H0 Hmax Herr s out.
  destruct (Insert_success_sorted n0 ops motorcycle now H0 Hmax) as [Hsorted _].
  fold s in Hsorted, Herr. fold out in Hsorted.
  pose proof (Insert_success s motorcycle now Herr) as Hout. fold out in Hout.
  assert (Hfind : forall k m, Motorcycles (store out) !! k = Some m ->
            FindByID (store out) (ID m) = (Some m, None)).
  { intros k m Hk. unfold FindByID.
    rewrite (findByID_sorted _ k m Hsorted Hk), Nat2Z.id, Hk. reflexivity. }
  split.
  - apply (Hfind (length (Motorcycles s))). rewrite Hout. simpl.
    rewrite lookup_app_r by lia. rewrite Nat.sub_diag. reflexivity.
  - intros k m Hk. apply (Hfind k). rewrite Hout. simpl.
    apply lookup_app_l_Some. exact Hk.
Qed.

(** X4. Inserting the entity a second time. On a repository used through
    its methods, the entity a successful Insert hands back now carries a
    stored ID, so a second Insert of it is refused with the "ID already
    exists" error and changes neither the store nor the entity. *)
Theorem Insert_twice_rejected n0 ops motorcycle now later :
  0 <= n0 -> n0 + Z.of_nat (length ops) < max_int ->
  err (Insert (run (NewMotorcycleRepository n0) ops) motorcycle now) = None ->
  let out := Insert (run (NewMotorcycleRepository n0) ops) motorcycle now in
  Insert (store out) (entity out) later
  = mkOutcome (store out) (entity out) None (Some err_ID_exists).
Proof.
  intros H0 Hmax Herr out.
  destruct (Insert_success_sorted n0 ops motorcycle now H0 Hmax) as [Hsorted _].
  fold out in Hsorted.
  apply Insert_rejects_present_ID_sorted; [exact Hsorted|].
  pose proof (Insert_success _ motorcycle now Herr) as Hout. fold out in Hout.
  rewrite Hout. unfold ids. simpl. rewrite fmap_app. apply elem_of_app. right.
  apply list_elem_of_here.
Qed.

(** X5. Insert, then Delete. On a repository used through its methods,
    deleting the entity a successful Insert handed back returns nil and
    leaves the collection exactly as it was before the Insert; the shared
    counter stays advanced, so the ID is not handed out again. *)
Theorem Insert_then_Delete n0 ops motorcycle now :
  0 <= n0 -> n0 + Z.of_nat (length ops) < max_int ->
  err (Insert (run (NewMotorcycleRepository n0) ops) motorcycle now) = None ->
  let s := run (NewMotorcycleRepository n0) ops in
  let out := Insert s motorcycle now in
  Delete (store out) (entity out) = (mkStore (nextID s + 1) (Motorcycles s), None).
Proof.
  intros H0 Hmax Herr s out.
  destruct (Insert_success_sorted n0 ops motorcycle now H0 Hmax) as [Hsorted _].
  fold s in Hsorted, Herr. fold out in Hsorted.
  pose proof (Insert_success s motorcycle now Herr) as Hout. fold out in Hout.
  destruct (reachable_invariant Validate n0 ops H0 ltac:(lia)) as (_ & _ & Hn & _).
  fold s in Hn.
  assert (Hadd : Go.add (nextID s) 1 = nextID s + 1).
  { apply add_no_overflow. unfold min_int, max_int in *. lia. }
  assert (Hk : Motorcycles (store out) !! length (Motorcycles s) = Some (entity out)).
  { rewrite Hout. simpl. rewrite lookup_app_r by lia. rewrite Nat.sub_diag. reflexivity. }
  rewrite (Delete_found _ _ (length (Motorcycles s))).
  - unfold removeIndex. rewrite Hout. simpl. rewrite Hadd.
    rewrite take_app_length. rewrite drop_ge by (rewrite length_app; simpl; lia).
    rewrite app_nil_r. reflexivity.
  - rewrite (findByID_sorted _ _ _ Hsorted Hk). reflexivity.
Qed.

(** X7. Update, then look up. On a collection in ascending ID order, after
    Update of a valid entity whose ID is stored, [FindByID] of that ID
    returns the entity as Update left it (ModifiedUtc set), every other
    record is still returned for its own ID, and the order is kept. *)
Theorem Update_then_FindByID s motorcycle now k old :
  sorted_by_ID s ->
  Motorcycles s !! k = Some old -> ID old = ID motorcycle ->
  Validate (set_ModifiedUtc motorcycle now) = None ->
  let out := Update s motorcycle now in
  err out = None /\ entity out = set_ModifiedUtc motorcycle now
  /\ sorted_by_ID (store out)
  /\ FindByID (store out) (ID motorcycle) = (Some (entity out), None)
  /\ forall j m, Motorcycles s !! j = Some m -> j <> k ->
       FindByID (store out) (ID m) = (Some m, None).
Proof.
  intros Hs Hk Hid Hv out.
  assert (Hsorted : sorted_by_ID (store out)).
  { unfold sorted_by_ID, out. rewrite Update_ids. exact Hs. }
  assert (Hout : out = mkOutcome
            (mkStore (nextID s)
               (<[k := set_ModifiedUtc motorcycle now]> (Motorcycles s)))
            (set_ModifiedUtc motorcycle now)
            (Some (set_ModifiedUtc motorcycle now)) None).
  { unfold out. rewrite (Update_found Validate s motorcycle now k).
    - rewrite Hv. reflexivity.
    - rewrite <- Hid, (findByID_sorted s k old Hs Hk). reflexivity. }
  pose proof (lookup_lt_Some _ _ _ Hk) as Hlen.
  assert (Hfind : forall j m, Motorcycles (store out) !! j = Some m ->
            FindByID (store out) (ID m) = (Some m, None)).
  { intros j m Hj. unfold FindByID.
    rewrite (findByID_sorted _ j m Hsorted Hj), Nat2Z.id, Hj. reflexivity. }
  split; [rewrite Hout; reflexivity|]. split; [rewrite Hout; reflexivity|].
  split; [exact Hsorted|]. split.
  - change (ID motorcycle) with (ID (set_ModifiedUtc motorcycle now)).
    replace (entity out) with (set_ModifiedUtc motorcycle now) by (rewrite Hout; reflexivity).
    apply (Hfind k). rewrite Hout. simpl. apply list_lookup_insert_eq. exact Hlen.
  - intros j m Hj Hne. apply (Hfind j). rewrite Hout. simpl.
    rewrite list_lookup_insert_ne by congruence. exact Hj.
Qed.

(** X8. In every state, for any pointer argument and whatever the
    outcome, [Update] keeps the stored IDs, their order, the number of
    records and the counter. When it returns an error no record is
    replaced and the returned entity is nil: for an entity the caller owns
    the store is exactly as before; for a pointer to a stored record the
    only possible change is that record's ModifiedUtc, written before
    validation. The entity pointed to is left as given or with only
    ModifiedUtc set. *)
Theorem Update_frame s p motorcycle now out :
  deref s p = Some motorcycle ->
  Update_ptr Validate s p now = Some out ->
  ids (store out) = ids s
  /\ length (Motorcycles (store out)) = length (Motorcycles s)
  /\ nextID (store out) = nextID s
  /\ (err out <> None ->
      returned out = None
      /\ (store out = s
          \/ store out = assign s p (set_ModifiedUtc motorcycle now)))
  /\ (forall owned, p = Owned owned -> err out <> None -> store out = s)
  /\ (forall j, p <> Stored j -> err out <> None ->
        Motorcycles (store out) !! j = Motorcycles s !! j)
  /\ (entity out = motorcycle \/ entity out = set_ModifiedUtc motorcycle now).
Proof.
  intros Hd Hout.
  assert (Hlen : ids (store out) = ids s ->
            length (Motorcycles (store out)) = length (Motorcycles s)).
  { intros Hids. apply (f_equal length) in Hids. unfold ids in Hids.
    rewrite !length_fmap in Hids. exact Hids. }
  destruct (findByID_cases s (ID motorcycle)) as [(k & mk & Hf & Hk & Hid)|Hf].
  - rewrite (Update_ptr_found Validate s p motorcycle now k Hd) in Hout
      by (rewrite Hf; reflexivity).
    set (m1 := set_ModifiedUtc motorcycle now) in *.
    assert (Hids1 : ids (assign s p m1) = ids s)
      by (apply (assign_ids s p motorcycle m1 Hd); reflexivity).
    destruct (Validate m1) as [e|]; inversion Hout; subst out; simpl.
    + split; [exact Hids1|]. split; [apply assign_length|].
      split; [apply assign_nextID|]. split; [auto|].
      split; [intros owned ->; reflexivity|].
      split; [intros j Hne _; apply assign_other; exact Hne|auto].
    + assert (Hids : ids (mkStore (nextID s) (<[k := m1]> (Motorcycles (assign s p m1))))
                     = ids s).
      { unfold ids. simpl. rewrite list_fmap_insert. fold (ids (assign s p m1)).
        rewrite Hids1. apply list_insert_id.
        unfold ids. rewrite list_lookup_fmap, Hk. simpl. congruence. }
      split; [exact Hids|]. split; [exact (Hlen Hids)|].
      split; [reflexivity|]. split; [intros Hne; contradiction|].
      split; [intros owned _ Hne; contradiction|].
      split; [intros j _ Hne; contradiction|auto].
  - rewrite (Update_ptr_not_found Validate s p motorcycle now Hd) in Hout
      by (rewrite Hf; reflexivity).
    inversion Hout; subst out; simpl. repeat split; auto.
Qed.

(** [Insert] through any pointer, by cases. *)
Lemma Insert_ptr_cases s p motorcycle now :
  deref s p = Some motorcycle ->
  (fst (findByID s (ID motorcycle)) <> -1
   /\ Insert_ptr Validate s p now
      = Some (mkOutcome s motorcycle None (Some err_ID_exists)))
  \/ (fst (findByID s (ID motorcycle)) = -1
      /\ exists e,
           Insert_ptr Validate s p now
           = Some (mkOutcome
                     (mkStore (Go.add (nextID s) 1)
                        (Motorcycles (assign s p (stamped s motorcycle now))))
                     (stamped s motorcycle now) None (Some e)))
  \/ (fst (findByID s (ID motorcycle)) = -1
      /\ Insert_ptr Validate s p now
         = Some (mkOutcome
                   (mkStore (Go.add (nextID s) 1)
                      (Motorcycles (assign s p (stamped s motorcycle now))
                       ++ [stamped s motorcycle now]))
                   (stamped s motorcycle now)
                   (Some (stamped s motorcycle now)) None)).
Proof.
  intros Hd. unfold Insert_ptr, stamped. rewrite Hd.
  destruct (findByID s (ID motorcycle)) as [i e]. simpl fst.
  unfold kPrimaryKeyID_DoesNotExist.
  destruct (Z.eqb_spec i (-1)) as [->|Hne]; simpl.
  - right. destruct (Validate _) as [e'|].
    + left. split; [reflexivity|]. exists e'. destruct p; reflexivity.
    + right. split; [reflexivity|]. destruct p; reflexivity.
  - left. split; [exact Hne|reflexivity].
Qed.

(** X10. In every state and for any pointer argument, [Insert] never
    removes a record and never alters a stored record other than the one
    its argument points to: it either returns an error with a nil entity
    and as many records as before, or a nil error with the entity it
    returns appended at the end. For an entity the caller owns every
    stored record therefore stays as it was. A pointer to a stored record
    is refused with "ID already exists" before anything is written when
    the collection is in ascending ID order; otherwise that stored record
    may take the new ID and CreatedUtc, even if validation then fails.
    Only ID and CreatedUtc are ever written. *)
Theorem Insert_frame s p motorcycle now out :
  deref s p = Some motorcycle ->
  Insert_ptr Validate s p now = Some out ->
  ((err out <> None /\ returned out = None
    /\ length (Motorcycles (store out)) = length (Motorcycles s))
   \/ (err out = None /\ returned out = Some (entity out)
       /\ Motorcycles (store out)
          = Motorcycles (assign s p (entity out)) ++ [entity out]))
  /\ (forall k m, Motorcycles s !! k = Some m -> p <> Stored k ->
        Motorcycles (store out) !! k = Some m)
  /\ (forall owned, p = Owned owned ->
        (err out <> None /\ Motorcycles (store out) = Motorcycles s)
        \/ (err out = None
            /\ Motorcycles (store out) = Motorcycles s ++ [entity out]))
  /\ (forall i, p = Stored i -> sorted_by_ID s ->
        out = mkOutcome s motorcycle None (Some err_ID_exists))
  /\ (forall i, p = Stored i -> Motorcycles (store out) !! i = Some (entity out))
  /\ (entity out = motorcycle \/ entity out = stamped s motorcycle now)
  /\ Make (entity out) = Make motorcycle /\ Model (entity out) = Model motorcycle
  /\ Year (entity out) = Year motorcycle /\ Vin (entity out) = Vin motorcycle
  /\ ModifiedUtc (entity out) = ModifiedUtc motorcycle.
Proof.
  intros Hd Hout.
  assert (Hsorted : forall i, p = Stored i -> sorted_by_ID s ->
            fst (findByID s (ID motorcycle)) <> -1).
  { intros i -> Hs. simpl in Hd. rewrite (findByID_sorted s i motorcycle Hs Hd).
    simpl. lia. }
  assert (Hat : forall i m, p = Stored i ->
            Motorcycles (assign s p m) !! i = Some m).
  { intros i m ->. simpl. apply list_lookup_insert_eq.
    simpl in Hd. eapply lookup_lt_Some. exact Hd. }
  set (m1 := stamped s motorcycle now) in *.
  destruct (Insert_ptr_cases s p motorcycle now Hd)
    as [[Hfound H]|[[Hmiss [e H]]|[Hmiss H]]];
    rewrite H in Hout; inversion Hout; subst out; simpl; clear Hout H.
  - split; [left; repeat split; discriminate|].
    split; [intros k m Hk _; exact Hk|].
    split; [intros owned _; left; split; [discriminate|reflexivity]|].
    split; [reflexivity|].
    split; [intros i ->; exact Hd|]. repeat split; auto.
  - split; [left; repeat split; [discriminate|apply assign_length]|].
    split; [intros k m Hk Hne; rewrite assign_other by exact Hne; exact Hk|].
    split; [intros owned ->; left; split; [discriminate|reflexivity]|].
    split; [intros i Hp Hs; destruct (Hsorted i Hp Hs); exact Hmiss|].
    split; [intros i Hp; apply Hat; exact Hp|]. repeat split; auto.
  - split; [right; repeat split|].
    split.
    { intros k m Hk Hne. apply lookup_app_l_Some.
      rewrite assign_other by exact Hne. exact Hk. }
    split; [intros owned ->; right; split; reflexivity|].
    split; [intros i Hp Hs; destruct (Hsorted i Hp Hs); exact Hmiss|].
    split; [intros i Hp; apply lookup_app_l_Some, Hat; exact Hp|].
    repeat split; auto.
Qed.

(** One call keeps every stored ID above a bound the counter has passed. *)
Lemma step_above lo s o :
  min_int <= nextID s -> nextID s < max_int -> lo <= nextID s ->
  Forall (fun id => lo < id) (ids s) ->
  Forall (fun id => lo < id) (ids (step s o))
  /\ nextID s <= nextID (step s o) <= nextID s + 1.
Proof.
  intros Hmin Hmax Hlo Hall.
  assert (Hadd : Go.add (nextID s) 1 = nextID s + 1).
  { apply add_no_overflow. unfold min_int, max_int in *. lia. }
  destruct o as [m now|m now|m| |]; cbn [Repositories.step].
  - destruct (Insert_cases s m now) as [[e H]|[[e H]|(_ & _ & H)]];
      rewrite H; simpl; rewrite ?Hadd.
    + split; [exact Hall|lia].
    + split; [exact Hall|lia].
    + split; [|lia]. unfold ids. simpl. rewrite fmap_app. apply Forall_app.
      split; [exact Hall|]. repeat constructor. unfold stamped. simpl.
      rewrite Hadd. lia.
  - rewrite Update_ids, Update_nextID. split; [exact Hall|lia].
  - destruct (Delete_cases s m) as [H|(k & old & _ & _ & H & _)]; rewrite H; simpl.
    + split; [exact Hall|lia].
    + split; [|lia]. unfold ids. simpl. rewrite ids_delete. fold (ids s).
      apply Forall_app. split; [apply Forall_take|apply Forall_drop]; exact Hall.
  - simpl. split; [exact Hall|lia].
  - unfold getNextID. simpl. rewrite Hadd. split; [exact Hall|lia].
Qed.

Lemma run_above lo ops : forall s,
  min_int <= nextID s -> nextID s + Z.of_nat (length ops) <= max_int ->
  lo <= nextID s -> Forall (fun id => lo < id) (ids s) ->
  Forall (fun id => lo < id) (ids (run s ops)).
Proof.
  induction ops as [|o ops IH]; intros s Hmin Hmax Hlo Hall; [exact Hall|].
  simpl length in Hmax. simpl. fold (run (step s o) ops).
  destruct (step_above lo s o Hmin ltac:(lia) Hlo Hall) as [Hall1 Hn1].
  apply IH; try lia. exact Hall1.
Qed.

(** X11. On a repository used through its methods (64-bit counter not
    exhausted), no two stored records share an ID, and every stored ID
    lies above the value the counter had when the repository was created
    and at or below its current value. *)
Theorem reachable_IDs_unique_and_bounded n0 ops :
  0 <= n0 -> n0 + Z.of_nat (length ops) <= max_int ->
  let s := run (NewMotorcycleRepository n0) ops in
  NoDup (ids s) /\ Forall (fun id => n0 < id <= nextID s) (ids s).
Proof.
  intros H0 Hmax s.
  destruct (reachable_invariant Validate n0 ops H0 Hmax) as (Hs & Hc & _).
  fold s in Hs, Hc. split; [apply sorted_NoDup; exact Hs|].
  assert (Habove : Forall (fun id => n0 < id) (ids s)).
  { apply (run_above n0 ops (NewMotorcycleRepository n0)); simpl;
      try (unfold min_int; lia). constructor. }
  unfold counter_covers in Hc. rewrite Forall_forall in *.
  intros id Hin. split; [apply Habove|apply Hc]; exact Hin.
Qed.

(** X12. At the end of the counter's range. When [nextID] stands at the
    largest int, a successful Insert gives the entity the smallest int as
    its ID. If the repository already holds records (their IDs above the
    smallest int), the new record is stored, but the collection is no
    longer in ascending ID order and [FindByID] with the new ID answers
    "not found". *)
Theorem Insert_at_max_int_is_lost s motorcycle now :
  nextID s = max_int -> Motorcycles s <> [] ->
  Forall (fun id => min_int < id) (ids s) ->
  err (Insert s motorcycle now) = None ->
  let out := Insert s motorcycle now in
  ID (entity out) = min_int
  /\ Motorcycles (store out) = Motorcycles s ++ [entity out]
  /\ FindByID (store out) (ID (entity out)) = (None, Some err_not_found)
  /\ ~ sorted_by_ID (store out).
Proof.
  intros Hn Hne Hall Herr out.
  pose proof (Insert_success s motorcycle now Herr) as Hout. fold out in Hout.
  assert (Hid : ID (entity out) = min_int).
  { rewrite Hout. unfold stamped. simpl. rewrite Hn. reflexivity. }
  assert (Hcoll : Motorcycles (store out) = Motorcycles s ++ [entity out]).
  { rewrite Hout. reflexivity. }
  assert (Hmiss : findByID (store out) min_int = (-1, Some err_not_found)).
  { unfold findByID. rewrite Hcoll.
    set (l' := Motorcycles s ++ [entity out]).
    assert (Hge : forall j m, l' !! j = Some m -> min_int <= ID m).
    { intros j m Hj. unfold l' in Hj. apply lookup_app_Some in Hj as [Hj|[_ Hj]].
      - rewrite Forall_forall in Hall. apply Z.lt_le_incl, Hall. unfold ids.
        apply list_elem_of_fmap. exists m. split; [reflexivity|].
        eapply list_elem_of_lookup_2; eassumption.
      - apply list_lookup_singleton_Some in Hj as [_ <-]. lia. }
    assert (Hsearch : Search (length l') (id_ge l' min_int) = 0%nat).
    { apply Search_threshold; [lia|intros j Hj; lia|].
      intros j Hj. unfold id_ge.
      destruct (lookup_lt_is_Some_2 l' j ltac:(lia)) as [m Hm]. rewrite Hm.
      apply Z.leb_le. eapply Hge. exact Hm. }
    rewrite Hsearch. unfold id_is.
    destruct (Motorcycles s) as [|m0 rest] eqn:Hl; [contradiction|].
    unfold l'. simpl.
    assert (min_int < ID m0).
    { rewrite Forall_forall in Hall. apply Hall. unfold ids. rewrite Hl.
      simpl. apply list_elem_of_here. }
    destruct (Z.eqb_spec (ID m0) min_int); [lia|]. reflexivity. }
  split; [exact Hid|]. split; [exact Hcoll|]. split.
  - unfold FindByID. rewrite Hid, Hmiss. reflexivity.
  - intros Hsorted.
    assert (Hk : Motorcycles (store out) !! length (Motorcycles s) = Some (entity out)).
    { rewrite Hcoll. rewrite lookup_app_r by lia. rewrite Nat.sub_diag. reflexivity. }
    pose proof (findByID_sorted _ _ _ Hsorted Hk) as Hfound.
    rewrite Hid, Hmiss in Hfound. discriminate.
Qed.

End WithValidate.

(** *** Concrete runs *)
Import Samples.

Lemma Update_frame_witness :
  store (mkOutcome
           (mkStore 1 [set_ModifiedUtc (set_CreatedUtc (set_ID nameless 1) 10) 20])
           (set_ModifiedUtc (set_CreatedUtc (set_ID nameless 1) 10) 20)
           None (Some "make: cannot be blank."))
  = assign with_nameless (Stored 0)
      (set_ModifiedUtc (set_CreatedUtc (set_ID nameless 1) 10) 20)
  /\ ids (mkStore 1 [set_ModifiedUtc (set_CreatedUtc (set_ID nameless 1) 10) 20])
     = ids with_nameless.
Proof.
  destruct (Update_frame make_required with_nameless (Stored 0)
              (set_CreatedUtc (set_ID nameless 1) 10) 20
              (mkOutcome
                 (mkStore 1
                    [set_ModifiedUtc (set_CreatedUtc (set_ID nameless 1) 10) 20])
                 (set_ModifiedUtc (set_CreatedUtc (set_ID nameless 1) 10) 20)
                 None (Some "make: cannot be blank."))
              eq_refl eq_refl) as (Hids & _).
  split; [reflexivity|exact Hids].
Defined.

Lemma Insert_frame_witness :
  let moved := set_CreatedUtc (set_ID yamaha 6) 30 in
  Insert_ptr make_required out_of_order (Stored 1) 30
  = Some (mkOutcome
            (mkStore 6 [set_CreatedUtc (set_ID honda 5) 10; moved; moved])
            moved (Some moved) None)
  /\ Motorcycles (mkStore 6 [set_CreatedUtc (set_ID honda 5) 10; moved; moved])
       !! 0%nat
     = Some (set_CreatedUtc (set_ID honda 5) 10).
Proof.
  intros moved. split; [reflexivity|].
  destruct (Insert_frame make_required out_of_order (Stored 1)
              (set_CreatedUtc (set_ID yamaha 1) 20) 30
              (mkOutcome
                 (mkStore 6 [set_CreatedUtc (set_ID honda 5) 10; moved; moved])
                 moved (Some moved) None)
              eq_refl eq_refl) as (_ & Hothers & _).
  apply (Hothers 0%nat (set_CreatedUtc (set_ID honda 5) 10) eq_refl).
  discriminate.
Defined.

Lemma Insert_then_FindByID_witness :
  let s := run make_required (NewMotorcycleRepository 0) [OpInsert honda 10] in
  let out := Insert make_required s yamaha 20 in
  FindByID (store out) (ID (entity out)) = (Some (entity out), None)
  /\ forall k m, Motorcycles s !! k = Some m ->
       FindByID (store out) (ID m) = (Some m, None).
Proof.
  apply (Insert_then_FindByID make_required 0 [OpInsert honda 10] yamaha 20).
  - lia.
  - unfold max_int. simpl. lia.
  - reflexivity.
Defined.

Lemma Insert_twice_rejected_witness :
  let out := Insert make_required
               (run make_required (NewMotorcycleRepository 0) [OpInsert honda 10])
               yamaha 20 in
  Insert make_required (store out) (entity out) 30
  = mkOutcome (store out) (entity out) None (Some err_ID_exists).
Proof.
  apply (Insert_twice_rejected make_required 0 [OpInsert honda 10] yamaha 20 30).
  - lia.
  - unfold max_int. simpl. lia.
  - reflexivity.
Defined.

Lemma Insert_then_Delete_witness :
  let s := run make_required (NewMotorcycleRepository 0) [OpInsert honda 10] in
  let out := Insert make_required s yamaha 20 in
  Delete (store out) (entity out) = (mkStore (nextID s + 1) (Motorcycles s), None).
Proof.
  apply (Insert_then_Delete make_required 0 [OpInsert honda 10] yamaha 20).
  - lia.
  - unfold max_int. simpl. lia.
  - reflexivity.
Defined.

Lemma Delete_then_FindByID_witness :
  let s := run make_required (NewMotorcycleRepository 0)
             [OpInsert honda 10; OpInsert yamaha 20] in
  snd (Delete s (set_ID honda 1)) = None
  /\ FindByID (fst (Delete s (set_ID honda 1))) 1 = (None, Some err_not_found).
Proof.
  intros s.
  destruct (Delete_then_FindByID s (set_ID honda 1) 0%nat
              (set_CreatedUtc (set_ID honda 1) 10))
    as (Hnil & _ & _ & Hgone & _).
  - repeat constructor.
  - reflexivity.
  - reflexivity.
  - split; [exact Hnil|exact Hgone].
Defined.

Lemma Update_then_FindByID_witness :
  let s := run make_required (NewMotorcycleRepository 0)
             [OpInsert honda 10; OpInsert yamaha 20] in
  let edited := mkMotorcycle 1 "Harley Davidson" "Shadow" 2006 "1HGCM82633A004352" 10 0 in
  FindByID (store (Update make_required s edited 30)) 1
  = (Some (entity (Update make_required s edited 30)), None).
Proof.
  intros s edited.
  destruct (Update_then_FindByID make_required s edited 30 0%nat
              (set_CreatedUtc (set_ID honda 1) 10))
    as (_ & _ & _ & Hfound & _).
  - repeat constructor.
  - reflexivity.
  - reflexivity.
  - reflexivity.
  - exact Hfound.
Defined.

Lemma reachable_IDs_unique_and_bounded_witness :
  let s := run make_required (NewMotorcycleRepository 0)
             [OpInsert honda 10; OpInsert nameless 15; OpInsert yamaha 20] in
  NoDup (ids s) /\ Forall (fun id => 0 < id <= nextID s) (ids s).
Proof.
  apply (reachable_IDs_unique_and_bounded make_required 0).
  - lia.
  - unfold max_int. simpl. lia.
Defined.

Lemma Insert_at_max_int_is_lost_witness :
  let s := mkStore max_int [set_ID honda max_int] in
  let out := Insert make_required s yamaha 20 in
  ID (entity out) = min_int
  /\ Motorcycles (store out) = Motorcycles s ++ [entity out]
  /\ FindByID (store out) (ID (entity out)) = (None, Some err_not_found)
  /\ ~ sorted_by_ID (store out).
Proof.
  apply (Insert_at_max_int_is_lost make_required
           (mkStore max_int [set_ID honda max_int]) yamaha 20).
  - reflexivity.
  - discriminate.
  - repeat constructor.
  - reflexivity.
Defined.

End RepositoryExtras.


(* ===================================================================== *)
(** * Further properties of the insert use case                           *)
(* ===================================================================== *)
Module InteractorExtras.
Import Go Interactors.

Section WithCollaborators.

Variable World : Type.
Variable Role : Type.
Variable Response : Type.
Variable InvalidEntityID : Z.
Variable AdminAuthorizationRole : Role.
Variable IsAuthenticated : World -> bool * World.
Variable IsAuthorized : Role -> World -> bool * World.
Variable FindByVin :
  string -> World -> (option Entities.Motorcycle * option Go.error) * World.
Variable Insert :
  option Entities.Motorcycle -> World ->
  (option Entities.Motorcycle * option Go.error) * World.
Variable Save : World -> option Go.error * World.
Variable NewMotorcycle :
  string -> string -> Z -> string -> option Entities.Motorcycle * option Go.error.
Variable NewInsertMotorcycleResponseMessage : Z -> option Go.error -> Response.

Local Abbreviation Handle_with FindByVin_ :=
  (Interactors.Handle World Role Response InvalidEntityID AdminAuthorizationRole
     IsAuthenticated IsAuthorized FindByVin_ Insert Save NewMotorcycle
     NewInsertMotorcycleResponseMessage).
Local Abbreviation Handle := (Handle_with FindByVin).
Local Abbreviation stage_of := (Interactors.stage_of Role).

Ltac unfold_Handle :=
  unfold Interactors.Handle, mbind, M_bind, bind, call, pure_call, failure, ret;
  cbn.

Ltac stage_membership :=
  rewrite !list_elem_of_In; cbn;
  solve [intuition (try discriminate; try congruence; auto)].

(** X13. [Handle] reaches the repository's Insert exactly when the caller
    is authenticated, holds the admin role, FindByVin returned no
    motorcycle and NewMotorcycle returned no error; and it reaches Save
    exactly when, in addition, Insert returned no error. A request turned
    away earlier never gets to the repository's Insert or Save. *)
Theorem Handle_reaches_Insert_iff requestMessage w :
  let w1 := snd (IsAuthenticated w) in
  let w2 := snd (IsAuthorized AdminAuthorizationRole w1) in
  let w3 := snd (FindByVin (Vin requestMessage) w2) in
  let made := NewMotorcycle (Make requestMessage) (Model requestMessage)
                (Year requestMessage) (Vin requestMessage) in
  let passed :=
    fst (IsAuthenticated w) = true
    /\ fst (IsAuthorized AdminAuthorizationRole w1) = true
    /\ fst (fst (FindByVin (Vin requestMessage) w2)) = None
    /\ snd made = None in
  let calls := snd (snd (Handle requestMessage (w, []))) in
  (RepoInsert ∈ (stage_of <$> calls) <-> passed)
  /\ (RepoSave ∈ (stage_of <$> calls)
      <-> passed /\ snd (fst (Insert (fst made) w3)) = None).
Proof.
  unfold_Handle.
  destruct (IsAuthenticated w) as [authenticated w1]; cbn.
  destruct authenticated; cbn; [|stage_membership].
  destruct (IsAuthorized AdminAuthorizationRole w1) as [authorized w2]; cbn.
  destruct authorized; cbn; [|stage_membership].
  destruct (FindByVin (Vin requestMessage) w2) as [[moto findErr] w3]; cbn.
  destruct moto; cbn; [stage_membership|].
  destruct (NewMotorcycle (Make requestMessage) (Model requestMessage)
              (Year requestMessage) (Vin requestMessage))
    as [motorcycle newErr]; cbn.
  destruct newErr; cbn; [stage_membership|].
  destruct (Insert motorcycle w3) as [[inserted insertErr] w4]; cbn.
  destruct insertErr; cbn; [stage_membership|].
  destruct (Save w4) as [saveErr w5]; cbn.
  destruct saveErr; cbn; [stage_membership|].
  destruct inserted; cbn; stage_membership.
Qed.

(** X14. [Handle] drops the error FindByVin returns: only whether a
    motorcycle came back matters. With a FindByVin that reports no error
    at all, [Handle] gives the same response, world and calls; so a lookup
    that fails with (nil, error) does not stop the insert. *)
Theorem Handle_ignores_FindByVin_error requestMessage st :
  Handle requestMessage st
  = Handle_with
      (fun vin w => ((fst (fst (FindByVin vin w)), None), snd (FindByVin vin w)))
      requestMessage st.
Proof.
  unfold_Handle. destruct st as [w calls]; cbn.
  destruct (IsAuthenticated w) as [authenticated w1]; cbn.
  destruct authenticated; cbn; [|reflexivity].
  destruct (IsAuthorized AdminAuthorizationRole w1) as [authorized w2]; cbn.
  destruct authorized; cbn; [|reflexivity].
  destruct (FindByVin (Vin requestMessage) w2) as [[moto findErr] w3]; cbn.
  reflexivity.
Qed.

End WithCollaborators.

(** *** The use case over the in-memory repository *)
Section OverMotorcycleRepository.

Import Repositories.

Variable Role : Type.
Variable Response : Type.
Variable InvalidEntityID : Z.
Variable AdminAuthorizationRole : Role.
Variable IsAuthenticated : Store -> bool * Store.
Variable IsAuthorized : Role -> Store -> bool * Store.
Variable FindByVin :
  string -> Store -> (option Entities.Motorcycle * option Go.error) * Store.
Variable Insert :
  option Entities.Motorcycle -> Store ->
  (option Entities.Motorcycle * option Go.error) * Store.
Variable Save : Store -> option Go.error * Store.
Variable NewMotorcycle :
  string -> string -> Z -> string -> option Entities.Motorcycle * option Go.error.
Variable NewInsertMotorcycleResponseMessage : Z -> option Go.error -> Response.
Variable Validate : Entities.Motorcycle -> option Go.error.
Variable now : Go.Time.

Local Abbreviation Handle :=
  (Interactors.Handle Store Role Response InvalidEntityID AdminAuthorizationRole
     IsAuthenticated IsAuthorized FindByVin Insert Save NewMotorcycle
     NewInsertMotorcycleResponseMessage).

(** X15. With [MotorcycleRepository] behind the interface, for a caller
    who passes the checks and an entity that NewMotorcycle built: the
    response and the final store are decided by the repository's Insert
    alone, since its Save never fails. If Insert returns an error, the
    response carries InvalidEntityID with that error and the collection is
    as before; otherwise it carries the new ID, [nextID + 1], with no
    error, and the collection has grown by exactly that entity. *)
Theorem Handle_over_MotorcycleRepository requestMessage w w1 w2 w3 findErr m :
  (forall mc s,
     Insert (Some mc) s
     = ((returned (Repositories.Insert Validate s mc now),
         err (Repositories.Insert Validate s mc now)),
        store (Repositories.Insert Validate s mc now))) ->
  (forall s, Save s = (snd (Repositories.Save s), fst (Repositories.Save s))) ->
  IsAuthenticated w = (true, w1) ->
  IsAuthorized AdminAuthorizationRole w1 = (true, w2) ->
  FindByVin (Vin requestMessage) w2 = ((None, findErr), w3) ->
  NewMotorcycle (Make requestMessage) (Model requestMessage)
    (Year requestMessage) (Vin requestMessage) = (Some m, None) ->
  let out := Repositories.Insert Validate w3 m now in
  fst (Handle requestMessage (w, []))
  = match err out with
    | Some e => Returned (NewInsertMotorcycleResponseMessage InvalidEntityID (Some e))
    | None =>
        Returned (NewInsertMotorcycleResponseMessage (Entities.ID (entity out)) None)
    end
  /\ fst (snd (Handle requestMessage (w, []))) = store out
  /\ (err out = None ->
      Entities.ID (entity out) = Go.add (nextID w3) 1
      /\ Motorcycles (store out) = Motorcycles w3 ++ [entity out])
  /\ (err out <> None -> Motorcycles (store out) = Motorcycles w3).
Proof.
  intros HInsert HSave Hauthn Hauthz Hvin Hnew out.
  unfold Interactors.Handle, mbind, M_bind, bind, call, pure_call, failure, ret.
  cbn. rewrite Hauthn. cbn. rewrite Hauthz. cbn. rewrite Hvin. cbn.
  rewrite Hnew. cbn. rewrite HInsert. fold out. cbn.
  destruct (RepositoryExtras.Insert_cases Validate w3 m now)
    as [[e H]|[[e H]|(_ & _ & H)]]; fold out in H; rewrite H; cbn.
  - repeat split; try reflexivity; discriminate.
  - repeat split; try reflexivity; discriminate.
  - rewrite HSave. cbn. repeat split; try reflexivity. intros Hne. contradiction.
Qed.

End OverMotorcycleRepository.

Import Samples.

Lemma Handle_over_MotorcycleRepository_witness :
  let w := Repositories.NewMotorcycleRepository 0 in
  let request := mkRequest "Honda" "Shadow" 2006 "1HGCM82633A004352" in
  let out := Repositories.Insert make_required w
               (Entities.mkMotorcycle 0 "Honda" "Shadow" 2006 "1HGCM82633A004352" 0 0)
               100 in
  fst (Interactors.Handle Repositories.Store string (Z * option Go.error) (-1) "admin"
         (sample_IsAuthenticated true) (sample_IsAuthorized true) sample_FindByVin
         sample_Insert sample_Save sample_NewMotorcycle pair request (w, []))
  = Returned (1, None)
  /\ Repositories.Motorcycles (Repositories.store out)
     = [Repositories.entity out].
Proof.
  intros w request out.
  destruct (Handle_over_MotorcycleRepository string (Z * option Go.error) (-1) "admin"
              (sample_IsAuthenticated true) (sample_IsAuthorized true)
              sample_FindByVin sample_Insert sample_Save sample_NewMotorcycle pair
              make_required 100 request w w w w
              (Some (Go.errors_New "motorcycle was not found"))
              (Entities.mkMotorcycle 0 "Honda" "Shadow" 2006 "1HGCM82633A004352" 0 0))
    as (Hresult & _ & Hok & _); try reflexivity.
  split; [exact Hresult|]. exact (proj2 (Hok eq_refl)).
Defined.

End InteractorExtras.

(* ===================================================================== *)
(** * Further properties of the insert view model                         *)
(* ===================================================================== *)
Module ViewmodelExtras.
Import Go Viewmodel ViewmodelProofs.

Lemma ValidateStruct_None_iff fields :
  ValidateStruct fields = None <-> Forall (fun f => snd f = None) fields.
Proof.
  induction fields as [|[name [msg|]] rest IH]; simpl.
  - split; [constructor|reflexivity].
  - split; [discriminate|]. intros H. inversion H; subst. discriminate.
  - rewrite IH. split.
    + intros H. constructor; [reflexivity|exact H].
    + intros H. inversion H; subst. assumption.
Qed.

Lemma Validate_None_iff MinEntityID vm :
  Validate MinEntityID vm = None
  <-> ID vm <> 0 /\ MinEntityID <= ID vm /\ Message vm <> "".
Proof.
  unfold Validate. rewrite ValidateStruct_None_iff.
  rewrite !Forall_cons, Forall_nil. simpl.
  unfold Required_int, Min, Required_string, NilOrNotEmpty_string. simpl.
  destruct (Z.eqb_spec (ID vm) 0) as [Hz|Hz];
    destruct (Z.ltb_spec (ID vm) MinEntityID) as [Hlt|Hge];
    destruct (String.eqb_spec (Message vm) "") as [Hm|Hm]; simpl;
    split; intros H; try (intuition (discriminate || congruence || lia)).
Qed.

(** X16. The view model's validation accepts exactly the view models whose
    ID is non-zero and at least MinEntityID and whose message is not
    empty; the Error field plays no part. *)
Theorem Validate_accepts_iff MinEntityID id message error :
  Validate MinEntityID (mkViewModel id message error) = None
  <-> id <> 0 /\ MinEntityID <= id /\ message <> "".
Proof. apply (Validate_None_iff MinEntityID (mkViewModel id message error)). Qed.

(** X17. What the constructor returns. A view model comes back only with a
    nil error, holds exactly the three arguments, and then its ID is
    non-zero and at least MinEntityID and its message is not empty. An
    error comes back only with a nil view model, only when an error was
    passed in, and its message starts with the message of that error. *)
Theorem NewInsertMotorcycleViewModel_returns MinEntityID id message error vm e :
  NewInsertMotorcycleViewModel MinEntityID id message error = Returned vm e ->
  (vm = Some (mkViewModel id message error) /\ e = None
   /\ id <> 0 /\ MinEntityID <= id /\ message <> "")
  \/ (vm = None
      /\ exists given msgErr,
           error = Some given
           /\ Validate MinEntityID (mkViewModel id message error) = Some msgErr
           /\ e = Some (given ++ ": " ++ msgErr)%string).
Proof.
  unfold NewInsertMotorcycleViewModel. simpl.
  destruct (Validate MinEntityID (mkViewModel id message error)) as [msgErr|] eqn:Hv.
  - destruct error as [given|]; [|discriminate]. intros H. inversion H; subst.
    right. split; [reflexivity|]. exists given, msgErr. auto.
  - intros H. inversion H; subst. left.
    apply Validate_None_iff in Hv. simpl in Hv. tauto.
Qed.

(** X18. The constructor panics exactly when it is given a nil error
    together with fields that fail validation: a zero ID, an ID below
    MinEntityID, or an empty message. With a non-nil error it never
    panics. *)
Theorem NewInsertMotorcycleViewModel_panics_iff MinEntityID id message error :
  NewInsertMotorcycleViewModel MinEntityID id message error = Panicked
  <-> error = None /\ (id = 0 \/ id < MinEntityID \/ message = "").
Proof.
  unfold NewInsertMotorcycleViewModel. simpl.
  pose proof (Validate_None_iff MinEntityID (mkViewModel id message error)) as Hv.
  simpl in Hv.
  destruct (Validate MinEntityID (mkViewModel id message error)) as [msgErr|].
  - assert (Hbad : id = 0 \/ id < MinEntityID \/ message = "").
    { destruct (Z.eq_dec id 0); [auto|].
      destruct (Z_lt_dec id MinEntityID); [auto|].
      destruct (string_dec message ""); [auto|].
      exfalso. assert (Some msgErr = None) by (apply Hv; repeat split; auto; lia).
      discriminate. }
    destruct error; split; intros H; try discriminate; auto.
    destruct H as [H _]. discriminate.
  - split; [discriminate|]. intros [_ Hbad].
    destruct (proj1 Hv eq_refl) as (Hz & Hge & Hm).
    destruct Hbad as [H|[H|H]]; [contradiction|lia|contradiction].
Qed.

(** X19. A failed insert never gets a view model. Provided InvalidEntityID
    is zero or below MinEntityID, [Handle] on a response that carries an
    error returns a nil view model and an error whose message is the
    response's error message followed by the validation message; it does
    not panic, whatever ID the response holds. *)
Theorem Handle_error_response MinEntityID InvalidEntityID id e :
  InvalidEntityID = 0 \/ InvalidEntityID < MinEntityID ->
  exists msgErr,
    Validate MinEntityID (mkViewModel InvalidEntityID e (Some e)) = Some msgErr
    /\ Handle MinEntityID InvalidEntityID (mkResponse id (Some e))
       = Returned None (Some (e ++ ": " ++ msgErr)%string).
Proof.
  intros Hinv.
  pose proof (Validate_None_iff MinEntityID (mkViewModel InvalidEntityID e (Some e)))
    as Hv. simpl in Hv.
  destruct (Validate MinEntityID (mkViewModel InvalidEntityID e (Some e)))
    as [msgErr|] eqn:Hval.
  - exists msgErr. split; [reflexivity|].
    unfold Handle. cbn [RespError]. unfold NewInsertMotorcycleViewModel.
    cbv zeta. unfold Go.error in *. rewrite Hval. reflexivity.
  - exfalso. destruct (proj1 Hv eq_refl) as (Hz & Hge & _). lia.
Qed.

(** X20. [Handle] on a response without error: when the response's ID is
    non-zero and at least MinEntityID it returns the view model holding
    that ID, the fixed success message and a nil error; for any other ID
    it panics. *)
Theorem Handle_success_response MinEntityID InvalidEntityID id :
  (id <> 0 /\ MinEntityID <= id ->
   Handle MinEntityID InvalidEntityID (mkResponse id None)
   = Returned (Some (mkViewModel id "Successfully inserted a new motorcycle." None))
       None)
  /\ (id = 0 \/ id < MinEntityID ->
      Handle MinEntityID InvalidEntityID (mkResponse id None) = Panicked).
Proof.
  unfold Handle. simpl. rewrite NewInsertMotorcycleViewModel_nil_error.
  pose proof (Validate_None_iff MinEntityID
                (mkViewModel id "Successfully inserted a new motorcycle." None)) as Hv.
  simpl in Hv.
  destruct (Validate MinEntityID _) as [msgErr|]; split.
  - intros [Hz Hge].
    assert (Some msgErr = None) by (apply Hv; repeat split; auto; discriminate).
    discriminate.
  - reflexivity.
  - reflexivity.
  - intros Hbad. destruct (proj1 Hv eq_refl) as (Hz & Hge & _). lia.
Qed.

Lemma NewInsertMotorcycleViewModel_returns_witness :
  (Some (mkViewModel 7 "ok" None) = Some (mkViewModel 7 "ok" None)
   /\ @None Go.error = None /\ 7 <> 0 /\ 1 <= 7 /\ "ok" <> "")
  \/ (Some (mkViewModel 7 "ok" None) = None
      /\ exists given msgErr,
           @None Go.error = Some given
           /\ Validate 1 (mkViewModel 7 "ok" None) = Some msgErr
           /\ @None Go.error = Some (given ++ ": " ++ msgErr)%string).
Proof.
  apply (NewInsertMotorcycleViewModel_returns 1 7 "ok" None). reflexivity.
Defined.

Lemma Handle_error_response_witness :
  exists msgErr,
    Validate 1 (mkViewModel (-1) "boom" (Some "boom")) = Some msgErr
    /\ Handle 1 (-1) (mkResponse 5 (Some "boom"))
       = Returned None (Some ("boom" ++ ": " ++ msgErr)%string).
Proof.
  apply (Handle_error_response 1 (-1) 5 "boom"). right. lia.
Defined.

End ViewmodelExtras.

